(** * Playwright API fixtures with Zod schemas: a shallow embedding

    The development follows the TypeScript sources:

    - [fixtures/api-fixture.ts]: the two fixtures [apiHelper] and
      [authenticatedApiHelper];
    - [schemas/schema.ts]: [LOGIN_API_SCHEMA];
    - [tests/api.test.spec.ts]: the consumers of the fixtures, embedded in
      [ApiTests];
    - [helpers/page.ts]: the methods of the page helper that decide
      something themselves, embedded in [PageHelper].

    [helpers/api-helper.ts] (the class [ApiHelper]) is not among the sources;
    its methods are modelled from the specification.  The test runner and the
    schema-validation library are external collaborators; the parts of their
    contracts that the fixtures and the schema rely on are modelled too. *)

From Stdlib Require Import ZArith Lia Ascii String.
From stdpp Require Import base option list strings gmap pretty.

Set Default Proof Using "Type".
#[local] Set Warnings "-register-all".

(** ** JavaScript values *)

(** The [any]-typed payloads of the sources: JSON values, plus [undefined]. *)
Inductive JsValue : Type :=
| JUndefined
| JNull
| JBool (b : bool)
| JNum (n : Z)
| JStr (s : string)
| JArr (items : list JsValue)
| JObj (fields : list (string * JsValue)).

Inductive TransportFault := Dns | Timeout | ConnectionReset.

(** What an [await] can throw in the modelled code. *)
Inductive Exn :=
| TransportError (f : TransportFault)
| TypeError (reading : string)
| AssertionError (msg : string)
| Fault (msg : string).

(** First binding of a key in the field list of an object. *)
Fixpoint assoc {A : Type} (k : string) (l : list (string * A)) : option A :=
  match l with
  | [] => None
  | (k', v) :: l' => if String.eqb k k' then Some v else assoc k l'
  end.

Definition has_key {A : Type} (k : string) (data : list (string * A)) : bool :=
  bool_decide (k ∈ data.*1).

(** [k in v] for an object; nothing else has fields. *)
Definition has_field (v : JsValue) (k : string) : bool :=
  match v with
  | JObj fields => has_key k fields
  | _ => false
  end.

Definition nullish (v : JsValue) : bool :=
  match v with
  | JUndefined | JNull => true
  | _ => false
  end.

(** The value of the property [k] of a value that is neither [null] nor
    [undefined], for a key [k] that no built-in prototype defines
    ([accessToken] and [refreshToken] are the only keys the fixtures read): a
    missing property reads as [undefined]; primitives and arrays have no such
    property. *)
Definition member (v : JsValue) (k : string) : JsValue :=
  match v with
  | JObj fields => default JUndefined (assoc k fields)
  | _ => JUndefined
  end.

(** [v.k]: reading a property of [null] or [undefined] throws a
    [TypeError]. *)
Definition get_prop (v : JsValue) (k : string) : Exn + JsValue :=
  if nullish v then inl (TypeError k) else inr (member v k).

(** ** HTTP requests and responses *)

Inductive Method := GET | POST | PUT | PATCH | DELETE.

(** Values of query parameters. *)
Inductive Scalar :=
| SNum (n : Z)
| SStr (s : string)
| SBool (b : bool).

Definition QueryParams : Type := list (string * Scalar).

(** The request as it leaves the client: final URL, effective headers, body. *)
Record Request := mkRequest {
  method : Method;
  url : string;
  headers : gmap string string;
  body : option JsValue
}.

(** The body of a response is represented by its decoding: the JSON value it
    parses to, or its text when it is not JSON. *)
Inductive Body :=
| BodyJson (j : JsValue)
| BodyText (t : string).

Record Response := mkResponse {
  status : Z;
  content : Body
}.

Inductive NetOutcome :=
| NetFault (f : TransportFault)
| NetResponse (r : Response).

(** ** The world of a test worker *)

Definition ClientId : Type := nat.

(** The value of [authenticatedApiHelper] (type [ApiFixtures]). *)
Record AuthCtx := mkAuthCtx {
  helper : ClientId;
  accessToken : JsValue;
  refreshToken : JsValue;
  response : JsValue
}.

(** The two fields of [ApiFixtures]. *)
Inductive FixtureValue :=
| VApiHelper (c : ClientId)
| VAuthenticated (ctx : AuthCtx).

(** States of the provisioning lifecycle. *)
Inductive Phase := UNSTARTED | LOGGING_IN | READY | TEARDOWN | FAILED | DONE.

(** How the consumer block ended. *)
Inductive Outcome :=
| Completed
| Raised (e : Exn).

Inductive Event :=
| EvNew (c : ClientId)                  (* [new ApiHelper()] *)
| EvRequest (c : ClientId) (r : Request)  (* an HTTP call issued by client [c] *)
| EvUse (v : FixtureValue)              (* the consumer starts with [v] *)
| EvConsumerEnd (o : Outcome)           (* the consumer finished *)
| EvPhase (p : Phase).                  (* a program point of the lifecycle *)

(** [network w n r] is what the [n]-th HTTP call of the worker gets when it
    sends [r]: the remote servers may answer the same request differently at
    different times. *)
Record World := mkWorld {
  network : nat → Request → NetOutcome;
  calls : nat;
  next_id : ClientId;
  verdict : option Outcome;
  log : list Event
}.

Definition emit (e : Event) (w : World) : World :=
  {| network := network w; calls := calls w; next_id := next_id w;
     verdict := verdict w; log := log w ++ [e] |}.

Definition set_verdict (o : option Outcome) (w : World) : World :=
  {| network := network w; calls := calls w; next_id := next_id w;
     verdict := o; log := log w |}.

Definition alloc (w : World) : World :=
  {| network := network w; calls := calls w; next_id := S (next_id w);
     verdict := verdict w; log := log w |}.

Definition next_call (w : World) : World :=
  {| network := network w; calls := S (calls w); next_id := next_id w;
     verdict := verdict w; log := log w |}.

(** ** Computations that may throw *)

Definition M (A : Type) : Type := World → (Exn + A) * World.

Definition ret {A : Type} (a : A) : M A := fun w => (inr a, w).

Definition throw {A : Type} (e : Exn) : M A := fun w => (inl e, w).

Definition bind {A B : Type} (m : M A) (f : A → M B) : M B := fun w =>
  match m w with
  | (inr a, w') => f a w'
  | (inl e, w') => (inl e, w')
  end.

Definition lift {A : Type} (r : Exn + A) : M A := fun w => (r, w).

Definition tell (e : Event) : M unit := fun w => (inr tt, emit e w).

#[export] Instance M_ret : MRet M := @ret.
#[export] Instance M_bind : MBind M := fun A B f m => bind m f.

(** ** RequestClient ([ApiHelper]) *)

(** Modelled from the spec: the constructor of [ApiHelper]
    ([helpers/api-helper.ts] is missing).  The client is stateless, so an
    instance is its identity only; [new] allocates the next identity. *)
Definition new_ApiHelper : M ClientId := fun w =>
  (inr (next_id w), emit (EvNew (next_id w)) (alloc w)).

Definition in_range (lo hi n : nat) : bool := (lo <=? n)%nat && (n <=? hi)%nat.

(** The characters [encodeURIComponent] leaves alone:
    [A-Z a-z 0-9 - _ . ! ~ * ' ( )]. *)
Definition is_unreserved (a : ascii) : bool :=
  let n := nat_of_ascii a in
  in_range 65 90 n || in_range 97 122 n || in_range 48 57 n
  || bool_decide (n ∈ [45; 95; 46; 33; 126; 42; 39; 40; 41]%nat).

Definition hex_digit (n : nat) : ascii :=
  default "0"%char (list_ascii_of_string "0123456789ABCDEF" !! n).

Definition percent_encode (a : ascii) : string :=
  let n := nat_of_ascii a in
  String "%" (String (hex_digit (n / 16)) (String (hex_digit (n mod 16)) "")).

(** Modelled from the spec: [encodeURIComponent] on a string given by its
    UTF-8 bytes: unreserved characters are kept, every other byte becomes
    [%XX]. *)
Fixpoint encodeURIComponent (s : string) : string :=
  match s with
  | EmptyString => ""
  | String a s' =>
      (if is_unreserved a then String a "" else percent_encode a)
      +:+ encodeURIComponent s'
  end.

(** [String(v)] for a scalar.  A number is an integer that a JavaScript
    number holds exactly (see [js_scalar]); such a number prints as its
    decimal digits. *)
Definition scalar_to_string (v : Scalar) : string :=
  match v with
  | SNum n => pretty n
  | SStr s => s
  | SBool true => "true"
  | SBool false => "false"
  end.

Definition query_entry (kv : string * Scalar) : string :=
  kv.1 +:+ "=" +:+ encodeURIComponent (scalar_to_string kv.2).

Fixpoint join (sep : string) (l : list string) : string :=
  match l with
  | [] => ""
  | [x] => x
  | x :: l' => x +:+ sep +:+ join sep l'
  end.

(** Modelled from the spec: the final URL of a call of [ApiHelper]: a
    [?]-prefixed, [&]-joined query string is appended when [queryParams] is
    non-empty; entries are [key=encodeURIComponent(value)] in insertion
    order. *)
Definition buildUrl (u : string) (q : option QueryParams) : string :=
  match q with
  | None | Some [] => u
  | Some q => u +:+ "?" +:+ join "&" (query_entry <$> q)
  end.

Definition default_headers : gmap string string :=
  {[ "Content-Type" := "application/json" ]}.

(** Modelled from the spec: the headers of a call of [ApiHelper]: the
    caller's headers, merged with the default [Content-Type] when a body is
    present; the caller's value wins on a key collision. *)
Definition effective_headers (h : option (gmap string string))
    (b : option JsValue) : gmap string string :=
  match b with
  | Some _ => default ∅ h ∪ default_headers
  | None => default ∅ h
  end.

(** Modelled from the spec: what a call of [ApiHelper] returns for a
    response: the parsed JSON body, or the raw response (status, text) when
    the body is not JSON. *)
Definition deserialize (r : Response) : JsValue :=
  match content r with
  | BodyJson j => j
  | BodyText t => JObj [("status", JNum (status r)); ("text", JStr t)]
  end.

Definition build_request (m : Method) (u : string)
    (h : option (gmap string string)) (b : option JsValue)
    (q : option QueryParams) : Request :=
  {| method := m; url := buildUrl u q; headers := effective_headers h b;
     body := b |}.

(** Modelled from the spec: one HTTP call of [ApiHelper]: one request is
    sent; any response, whatever its status, is returned deserialized; a
    transport fault is thrown as a [TransportError].  No retry, no cache. *)
Definition sendRequest (c : ClientId) (m : Method) (u : string)
    (h : option (gmap string string)) (b : option JsValue)
    (q : option QueryParams) : M JsValue := fun w =>
  let req := build_request m u h b q in
  let w' := emit (EvRequest c req) (next_call w) in
  match network w (calls w) req with
  | NetFault f => (inl (TransportError f), w')
  | NetResponse r => (inr (deserialize r), w')
  end.

(** Modelled from the spec: the five methods of [ApiHelper], with the
    parameter lists of the project's documentation; a GET carries no body. *)
Definition getRequest c u h q := sendRequest c GET u h None q.
Definition postRequest c u h b q := sendRequest c POST u h b q.
Definition putRequest c u h b q := sendRequest c PUT u h b q.
Definition patchRequest c u h b q := sendRequest c PATCH u h b q.
Definition deleteRequest c u h b q := sendRequest c DELETE u h b q.








(** The body a verb puts on the wire: a GET carries none. *)
Definition wire_body (m : Method) (b : option JsValue) : option JsValue :=
  match m with
  | GET => None
  | _ => b
  end.

(** The method of [ApiHelper] for a verb. *)
Definition call (m : Method) (c : ClientId) (u : string)
    (h : option (gmap string string)) (b : option JsValue)
    (q : option QueryParams) : M JsValue :=
  match m with
  | GET => getRequest c u h q
  | POST => postRequest c u h b q
  | PUT => putRequest c u h b q
  | PATCH => patchRequest c u h b q
  | DELETE => deleteRequest c u h b q
  end.


(** ** Test bodies and the test runner *)

(** What the body of a test does with the value of its fixture: calls
    through clients, construction of further clients, and failures (a failed
    [expect] is an [AssertionError], anything else a [Fault]).  A transport
    error of a call is not caught by the tests and ends the body. *)
Inductive TestBody :=
| TDone
| TThrow (e : Exn)
| TNew (k : ClientId → TestBody)
| TCall (m : Method) (c : ClientId) (u : string)
    (h : option (gmap string string)) (b : option JsValue)
    (q : option QueryParams) (k : JsValue → TestBody).

Fixpoint run_body (t : TestBody) : M unit :=
  match t with
  | TDone => mret tt
  | TThrow e => throw e
  | TNew k => c ← new_ApiHelper; run_body (k c)
  | TCall m c u h b q k => r ← call m c u h b q; run_body (k r)
  end.

(** Modelled from the spec: the [use] callback the test runner passes to a
    fixture.  It runs the consumer with the value of the fixture and resolves
    when the consumer has finished; the outcome of the consumer (normal
    completion, failed assertion, unexpected fault) is recorded by the runner
    and is not thrown into the fixture. *)
Definition outcome_of (r : Exn + unit) : Outcome :=
  match r with
  | inr _ => Completed
  | inl e => Raised e
  end.

Definition use (body : FixtureValue → TestBody) (v : FixtureValue) : M unit :=
  fun w =>
    let r := run_body (body v) (emit (EvUse v) w) in
    (inr tt,
     emit (EvConsumerEnd (outcome_of r.1))
       (set_verdict (Some (outcome_of r.1)) r.2)).

(** The report of the runner for one test. *)
Inductive TestStatus :=
| Passed
| TestFailed (e : Exn)       (* the consumer failed *)
| SetupFailed (e : Exn)      (* the fixture failed before the consumer ran *)
| TeardownFailed (e : Exn).  (* the fixture failed after the consumer ran *)

Definition status_of (o : option Outcome) : TestStatus :=
  match o with
  | Some (Raised e) => TestFailed e
  | _ => Passed
  end.

Definition Fixture : Type := (FixtureValue → M unit) → M unit.

(** Modelled from the spec: one test of the runner with one fixture: the
    fixture function is called with [use]; a fixture that throws before it
    called [use] is a setup failure and the body never runs. *)
Definition runTest (fixture : Fixture) (body : FixtureValue → TestBody)
    : World → TestStatus * World := fun w =>
  match fixture (use body) (set_verdict None w) with
  | (inr _, w') => (status_of (verdict w'), emit (EvPhase DONE) w')
  | (inl e, w') =>
      match verdict w' with
      | None => (SetupFailed e, emit (EvPhase DONE) (emit (EvPhase FAILED) w'))
      | Some _ => (TeardownFailed e, emit (EvPhase DONE) w')
      end
  end.

(** ** The fixtures ([fixtures/api-fixture.ts]) *)

(** [testData/loginUser.json]. *)
Definition loginData : JsValue :=
  JObj [("username", JStr "emilys"); ("password", JStr "emilyspass")].

Definition login_url : string := "https://dummyjson.com/auth/login".

Definition json_headers : gmap string string :=
  {[ "Content-Type" := "application/json" ]}.

(** Nothing follows [await use(...)] in either fixture: the cleanup phase is
    the program point after it. *)
Definition teardown : M unit := tell (EvPhase TEARDOWN).

(** [apiHelper: async ({}, use) => { ... }] *)
Definition apiHelper : Fixture := fun use =>
  apiHelper ← new_ApiHelper;
  use (VApiHelper apiHelper);;
  teardown.

(** [authenticatedApiHelper: async ({}, use) => { ... }] *)
Definition authenticatedApiHelper : Fixture := fun use =>
  apiHelper ← new_ApiHelper;
  tell (EvPhase LOGGING_IN);;
  response ← postRequest apiHelper login_url (Some json_headers)
               (Some loginData) None;
  accessToken ← lift (get_prop response "accessToken");
  refreshToken ← lift (get_prop response "refreshToken");
  use (VAuthenticated
         {| helper := apiHelper; accessToken := accessToken;
            refreshToken := refreshToken; response := response |});;
  teardown.

(** The request of the login call of [authenticatedApiHelper]. *)
Definition login_request : Request :=
  build_request POST login_url (Some json_headers) (Some loginData) None.

(** The world after the login call of [authenticatedApiHelper] started in
    [w]. *)
Definition logged_in (w : World) : World :=
  emit (EvRequest (next_id w) login_request)
    (next_call (emit (EvPhase LOGGING_IN) (emit (EvNew (next_id w)) (alloc w)))).

(** The record [authenticatedApiHelper] builds from the client [c] and the
    login response [p]. *)
Definition context_of (c : ClientId) (p : JsValue) : AuthCtx :=
  {| helper := c; accessToken := member p "accessToken";
     refreshToken := member p "refreshToken"; response := p |}.

(** The type of the method [postRequest] of [ApiHelper]. *)
Definition PostRequest : Type :=
  ClientId → string → option (gmap string string) → option JsValue →
  option QueryParams → M JsValue.

(** [authenticatedApiHelper: async ({}, use) => { ... }], with the method
    [postRequest] of the client it constructs as a parameter: the fixture as
    the source has it, for any implementation of [ApiHelper]. *)
Definition authenticatedApiHelper_with (postRequest : PostRequest) : Fixture :=
  fun use =>
  apiHelper ← new_ApiHelper;
  tell (EvPhase LOGGING_IN);;
  response ← postRequest apiHelper login_url (Some json_headers)
               (Some loginData) None;
  accessToken ← lift (get_prop response "accessToken");
  refreshToken ← lift (get_prop response "refreshToken");
  use (VAuthenticated
         {| helper := apiHelper; accessToken := accessToken;
            refreshToken := refreshToken; response := response |});;
  teardown.

(** ** Sample servers *)

Definition always (o : NetOutcome) : nat → Request → NetOutcome := λ _ _, o.

Definition ok (j : JsValue) : Response := {| status := 200; content := BodyJson j |}.

(** A login response of the shape the login endpoint documents. *)
Definition sample_login : JsValue :=
  JObj [("accessToken", JStr "eyJhbGciOi.access");
        ("refreshToken", JStr "eyJhbGciOi.refresh");
        ("id", JNum 1);
        ("username", JStr "emilys");
        ("email", JStr "emily.johnson@x.dummyjson.com");
        ("firstName", JStr "Emily");
        ("lastName", JStr "Johnson");
        ("gender", JStr "female");
        ("image", JStr "https://dummyjson.com/icon/emilys/128")].

(** A response of the refresh endpoint. *)
Definition sample_refreshed : JsValue :=
  JObj [("accessToken", JStr "eyJhbGciOi.access2");
        ("refreshToken", JStr "eyJhbGciOi.refresh2")].

(** A server that answers the first call with [first] and every later call
    with [later]. *)
Definition first_then (first later : Response) : nat → Request → NetOutcome :=
  λ n _, NetResponse (if (n =? 0)%nat then first else later).

(** An error payload of the login endpoint. *)
Definition sample_error : JsValue :=
  JObj [("message", JStr "Invalid credentials")].

(** ** Reading a trace *)

(** Bodies that call only through clients that exist: the clients below [n]
    and the clients the body constructs itself. *)
Inductive scoped : nat → TestBody → Prop :=
| scoped_done n : scoped n TDone
| scoped_throw n e : scoped n (TThrow e)
| scoped_new n k :
    (∀ c, (n ≤ c)%nat → scoped (S c) (k c)) → scoped n (TNew k)
| scoped_call n m c u h b q k :
    (c < n)%nat → (∀ r, scoped n (k r)) → scoped n (TCall m c u h b q k).

Definition initial (net : nat → Request → NetOutcome) : World :=
  {| network := net; calls := 0; next_id := 0; verdict := None; log := [] |}.

Definition is_new (e : Event) : bool :=
  match e with EvNew _ => true | _ => false end.

Definition is_request (e : Event) : bool :=
  match e with EvRequest _ _ => true | _ => false end.

Definition is_use (e : Event) : bool :=
  match e with EvUse _ => true | _ => false end.

Definition is_teardown (e : Event) : bool :=
  match e with EvPhase TEARDOWN => true | _ => false end.

(** The events a test body can produce. *)
Definition body_event (e : Event) : bool := is_new e || is_request e.

Definition count (p : Event → bool) (l : list Event) : nat :=
  length (filter (λ e, p e = true) l).

(** The clients an event mentions. *)
Definition clients_of (e : Event) : list ClientId :=
  match e with
  | EvNew c | EvRequest c _ | EvUse (VApiHelper c) => [c]
  | EvUse (VAuthenticated ctx) => [helper ctx]
  | _ => []
  end.

(** The values handed to consumers. *)
Definition yielded (evs : list Event) : list FixtureValue :=
  omap (λ e, match e with EvUse v => Some v | _ => None end) evs.

(** The events one test adds to the log, and its report. *)
Definition run_trace (fixture : Fixture) (body : FixtureValue → TestBody)
    (w : World) : list Event :=
  drop (length (log w)) (log (runTest fixture body w).2).

Definition run_status (fixture : Fixture) (body : FixtureValue → TestBody)
    (w : World) : TestStatus :=
  (runTest fixture body w).1.

(** No event so far mentions the client. *)
Definition fresh (c : ClientId) (w : World) : Prop :=
  ∀ e, e ∈ log w → c ∉ clients_of e.

(** The lifecycle state an event enters, if any. *)
Definition phase_of (e : Event) : option Phase :=
  match e with
  | EvUse _ => Some READY
  | EvPhase p => Some p
  | _ => None
  end.

(** The lifecycle of a run, read off the events it produced. *)
Definition lifecycle (evs : list Event) : list Phase :=
  UNSTARTED :: omap phase_of evs.

(** The run of a test whose fixture fails while logging in. *)
Definition failed_trace (w : World) : list Event :=
  [EvNew (next_id w); EvPhase LOGGING_IN; EvRequest (next_id w) login_request;
   EvPhase FAILED; EvPhase DONE].

(** The state machine of the provisioning lifecycle. *)
Inductive lifecycle_step : Phase → Phase → Prop :=
| step_start : lifecycle_step UNSTARTED LOGGING_IN
| step_ready : lifecycle_step LOGGING_IN READY
| step_teardown : lifecycle_step READY TEARDOWN
| step_done : lifecycle_step TEARDOWN DONE
| step_failed : lifecycle_step LOGGING_IN FAILED
| step_abort : lifecycle_step FAILED DONE.

Inductive lifecycle_path : list Phase → Prop :=
| path_one p : lifecycle_path [p]
| path_cons p q l :
    lifecycle_step p q → lifecycle_path (q :: l) → lifecycle_path (p :: q :: l).

(** Worlds in which every client mentioned so far has been allocated. *)
Definition wf (w : World) : Prop :=
  ∀ e c, e ∈ log w → c ∈ clients_of e → (c < next_id w)%nat.


(** ** The schema validator and [LOGIN_API_SCHEMA] ([schemas/schema.ts]) *)

Module Zod.

Inductive StringCheck := CheckEmail | CheckUrl.

(** [unknownKeys] of an object schema; [z.object] strips, [.strict()]
    rejects. *)
Inductive UnknownKeys := Strip | Strict | Passthrough.

(** The schemas that [schemas/schema.ts] builds [LOGIN_API_SCHEMA] from. *)
Inductive ZodType :=
| ZodString (checks : list StringCheck)
| ZodNumber
| ZodEnum (values : list string)
| ZodObject (shape : list (string * ZodType)) (unknownKeys : UnknownKeys).

Inductive ParsedType :=
| ty_undefined | ty_null | ty_boolean | ty_number | ty_string | ty_array
| ty_object.

Definition typeof (v : JsValue) : ParsedType :=
  match v with
  | JUndefined => ty_undefined
  | JNull => ty_null
  | JBool _ => ty_boolean
  | JNum _ => ty_number
  | JStr _ => ty_string
  | JArr _ => ty_array
  | JObj _ => ty_object
  end.

Inductive Expected :=
| ExpString
| ExpNumber
| ExpObject
| ExpOneOf (values : list string).

Inductive IssueCode :=
| invalid_type (expected : Expected) (received : ParsedType)
| invalid_string (validation : StringCheck)
| invalid_enum_value (options : list string) (received : string)
| unrecognized_keys (keys : list string).

(** One entry of a [ValidationError]: what is wrong, and where. *)
Record ZodIssue := mkIssue {
  code : IssueCode;
  path : list string
}.

(** The error [parse] throws. *)
Inductive ValidationError := ZodError (issues : list ZodIssue).

(** The issues found, and the parsed value unless parsing was aborted. *)
Definition ParseReturn : Type := list ZodIssue * option JsValue.

(** The string formats of the library (its email pattern, the URL
    constructor of the platform). *)
Record StringFormats := mkFormats {
  is_email : string → bool;
  is_url : string → bool
}.

Definition is_undefined (v : JsValue) : bool :=
  match v with JUndefined => true | _ => false end.

(** A parsed field is set in the result unless its value is [undefined] and
    the key is not in the input; [__proto__] is never set. *)
Definition keep (k : string) (x : JsValue) (data : list (string * JsValue))
    : bool :=
  negb (String.eqb k "__proto__") && (negb (is_undefined x) || has_key k data).

(** Modelled from the spec: the schema-validation library is not under
    [src/].  The fields of a shape are parsed in the order of the shape, each
    at its own path; a field the input lacks is parsed as [undefined]. *)
Fixpoint parse_shape
    (parse_field : list string → ZodType → JsValue → ParseReturn)
    (p : list string) (data : list (string * JsValue))
    (shape : list (string * ZodType))
    : list ZodIssue * option (list (string * JsValue)) :=
  match shape with
  | [] => ([], Some [])
  | kt :: shape' =>
      let r := parse_field (p ++ [kt.1]) kt.2
                 (default JUndefined (assoc kt.1 data)) in
      let rs := parse_shape parse_field p data shape' in
      (r.1 ++ rs.1,
       match r.2, rs.2 with
       | Some x, Some xs =>
           Some (if keep kt.1 x data then (kt.1, x) :: xs else xs)
       | _, _ => None
       end)
  end.

(** The keys of the input that the shape does not declare, in the order of
    the input. *)
Definition extra_keys (shape : list (string * ZodType))
    (data : list (string * JsValue)) : list string :=
  filter (λ k, k ∉ shape.*1) data.*1.

(** Every declared field is present with a value of the declared form. *)
Fixpoint shape_conforms (field_ok : ZodType → JsValue → bool)
    (data : list (string * JsValue)) (shape : list (string * ZodType))
    : bool :=
  match shape with
  | [] => true
  | kt :: shape' =>
      match assoc kt.1 data with
      | Some x => field_ok kt.2 x
      | None => false
      end && shape_conforms field_ok data shape'
  end.

Definition primitive (t : ZodType) : bool :=
  match t with
  | ZodObject _ _ => false
  | _ => true
  end.

(** What the issue for a value of the wrong type says was expected. *)
Definition expected_of (t : ZodType) : Expected :=
  match t with
  | ZodString _ => ExpString
  | ZodNumber => ExpNumber
  | ZodEnum values => ExpOneOf values
  | ZodObject _ _ => ExpObject
  end.

Section Parse.
Context (fmt : StringFormats).

Definition check_string (p : list string) (s : string) (c : StringCheck)
    : list ZodIssue :=
  match c with
  | CheckEmail =>
      if is_email fmt s then [] else [mkIssue (invalid_string CheckEmail) p]
  | CheckUrl =>
      if is_url fmt s then [] else [mkIssue (invalid_string CheckUrl) p]
  end.

(** Modelled from the spec: the validator at path [p].  A value of the wrong
    type gives one issue and no value; a string that fails a format check
    gives one issue per check; an object gives the issues of its declared
    fields and then, when strict, one issue with the keys it does not
    declare. *)
Fixpoint parse_at (p : list string) (t : ZodType) (v : JsValue)
    {struct t} : ParseReturn :=
  match t with
  | ZodString checks =>
      match v with
      | JStr s => (checks ≫= check_string p s, Some v)
      | _ => ([mkIssue (invalid_type ExpString (typeof v)) p], None)
      end
  | ZodNumber =>
      match v with
      | JNum _ => ([], Some v)
      | _ => ([mkIssue (invalid_type ExpNumber (typeof v)) p], None)
      end
  | ZodEnum values =>
      match v with
      | JStr s =>
          if bool_decide (s ∈ values) then ([], Some v)
          else ([mkIssue (invalid_enum_value values s) p], None)
      | _ => ([mkIssue (invalid_type (ExpOneOf values) (typeof v)) p], None)
      end
  | ZodObject shape unknownKeys =>
      match v with
      | JObj data =>
          let rs := parse_shape parse_at p data shape in
          let extra := extra_keys shape data in
          let issues :=
            match unknownKeys, extra with
            | Strict, _ :: _ => [mkIssue (unrecognized_keys extra) p]
            | _, _ => []
            end in
          let passed :=
            match unknownKeys with
            | Passthrough =>
                (λ k, (k, default JUndefined (assoc k data))) <$> extra
            | _ => []
            end in
          (rs.1 ++ issues, (λ xs, JObj (xs ++ passed)) <$> rs.2)
      | _ => ([mkIssue (invalid_type ExpObject (typeof v)) p], None)
      end
  end.

(** Modelled from the spec: [schema.parse(v)]: the parsed value, or the
    error listing every issue. *)
Definition parse (t : ZodType) (v : JsValue) : ValidationError + JsValue :=
  match parse_at [] t v with
  | ([], Some x) => inr x
  | (issues, _) => inl (ZodError issues)
  end.

(** A value has the form a schema declares: the words of the schema, read
    as a predicate. *)
Fixpoint conforms (t : ZodType) (v : JsValue) {struct t} : bool :=
  match t with
  | ZodString checks =>
      match v with
      | JStr s =>
          forallb (λ c, match c with
                        | CheckEmail => is_email fmt s
                        | CheckUrl => is_url fmt s
                        end) checks
      | _ => false
      end
  | ZodNumber => match v with JNum _ => true | _ => false end
  | ZodEnum values =>
      match v with JStr s => bool_decide (s ∈ values) | _ => false end
  | ZodObject shape unknownKeys =>
      match v with
      | JObj data =>
          shape_conforms conforms data shape
          && match unknownKeys with
             | Strict => forallb (λ k, bool_decide (k ∈ shape.*1)) data.*1
             | _ => true
             end
      | _ => false
      end
  end.

End Parse.

(** [export const LOGIN_API_SCHEMA = z.object({...}).strict()] *)
Definition LOGIN_API_SCHEMA : ZodType :=
  ZodObject
    [("accessToken", ZodString []);
     ("refreshToken", ZodString []);
     ("id", ZodNumber);
     ("username", ZodString []);
     ("email", ZodString [CheckEmail]);
     ("firstName", ZodString []);
     ("lastName", ZodString []);
     ("gender", ZodEnum ["male"; "female"]);
     ("image", ZodString [CheckUrl])]
    Strict.

Definition shape_of (t : ZodType) : list (string * ZodType) :=
  match t with
  | ZodObject shape _ => shape
  | _ => []
  end.

(** The fields a schema declares. *)
Definition declared (t : ZodType) : list string := (shape_of t).*1.

(** The declared fields of an object, in the order of the schema. *)
Definition pick (t : ZodType) (data : list (string * JsValue))
    : list (string * JsValue) :=
  (λ k, (k, default JUndefined (assoc k data))) <$> declared t.

End Zod.


(** ** The API tests ([tests/api.test.spec.ts]) *)

Module ApiTests.

(** A test: the fixture its body asks for, and the body. *)
Record Test := mkTest {
  fixture_of : Fixture;
  body_of : FixtureValue → TestBody
}.

Definition run (t : Test) (w : World) : TestStatus * World :=
  runTest (fixture_of t) (body_of t) w.

(** A body that asks for [authenticatedApiHelper]; the runner hands it no
    other value. *)
Definition with_authenticated (f : AuthCtx → TestBody) : FixtureValue → TestBody :=
  λ v, match v with
       | VAuthenticated ctx => f ctx
       | VApiHelper _ => TThrow (Fault "fixture")
       end.

(** A body that asks for [apiHelper]. *)
Definition with_apiHelper (f : ClientId → TestBody) : FixtureValue → TestBody :=
  λ v, match v with
       | VApiHelper c => f c
       | VAuthenticated _ => TThrow (Fault "fixture")
       end.

(** [expect(...).matcher(...)]: a matcher that does not pass throws. *)
Definition expect (pass : bool) (matcher : string) (k : TestBody) : TestBody :=
  if pass then k else TThrow (AssertionError matcher).

(** [toBeDefined]: anything but [undefined]. *)
Definition toBeDefined (v : JsValue) : bool :=
  match v with JUndefined => false | _ => true end.

(** [toBeTruthy]: anything but [undefined], [null], [false], [0] and the
    empty string. *)
Definition toBeTruthy (v : JsValue) : bool :=
  match v with
  | JUndefined | JNull => false
  | JBool b => b
  | JNum n => negb (n =? 0)%Z
  | JStr s => negb (String.eqb s "")
  | JArr _ | JObj _ => true
  end.

(** [toHaveProperty(k)], for a key that no built-in prototype defines: the
    received value is an object with the key; [null] and [undefined] are
    refused by the matcher, which fails the test as well. *)
Definition toHaveProperty (v : JsValue) (k : string) : bool := has_field v k.

(** [not.toBeNull]. *)
Definition notToBeNull (v : JsValue) : bool :=
  match v with JNull => false | _ => true end.

(** [toEqual(s)] for a string [s]. *)
Definition toEqualString (v : JsValue) (s : string) : bool :=
  match v with JStr s' => String.eqb s' s | _ => false end.

(** [toBe(n)] for a number [n]. *)
Definition toBeNumber (v : JsValue) (n : Z) : bool :=
  match v with JNum m => (m =? n)%Z | _ => false end.

(** [v.k] in a test body. *)
Definition read (v : JsValue) (k : string) (f : JsValue → TestBody) : TestBody :=
  match get_prop v k with
  | inl e => TThrow e
  | inr x => f x
  end.

(** [loginData.username]. *)
Definition loginData_username : string := "emilys".

Section Tests.
Context (fmt : Zod.StringFormats).
(** The conversion of a value to a string in a template literal. *)
Context (ToString : JsValue → string).

(** ["Login user and get tokens"]; an error thrown by [parse] is a fault of
    the test. *)
Definition login_user_and_get_tokens : Test :=
  {| fixture_of := authenticatedApiHelper;
     body_of := with_authenticated (λ authenticatedApiHelper,
       expect (toBeDefined (accessToken authenticatedApiHelper)) "toBeDefined"
         (expect (toBeDefined (refreshToken authenticatedApiHelper)) "toBeDefined"
            (match Zod.parse fmt Zod.LOGIN_API_SCHEMA
                     (response authenticatedApiHelper) with
             | inr parsed => expect (toBeTruthy parsed) "toBeTruthy" TDone
             | inl _ => TThrow (Fault "ZodError")
             end))) |}.

Definition me_url : string := "https://dummyjson.com/auth/me".

(** ["Get current auth user"] *)
Definition get_current_auth_user : Test :=
  {| fixture_of := authenticatedApiHelper;
     body_of := with_authenticated (λ authenticatedApiHelper,
       TCall GET (helper authenticatedApiHelper) me_url
         (Some {[ "Authorization" :=
                    "Bearer " +:+ ToString (accessToken authenticatedApiHelper) ]})
         None None
         (λ response,
            read response "username" (λ username,
              expect (toEqualString username loginData_username) "toEqual"
                TDone))) |}.

Definition refresh_url : string := "https://dummyjson.com/auth/refresh".

(** ["Refresh auth session"] *)
Definition refresh_auth_session : Test :=
  {| fixture_of := authenticatedApiHelper;
     body_of := with_authenticated (λ authenticatedApiHelper,
       TCall POST (helper authenticatedApiHelper) refresh_url
         (Some {[ "Content-Type" := "application/json" ]})
         (Some (JObj [("refreshToken", refreshToken authenticatedApiHelper)]))
         None
         (λ response,
            expect (toHaveProperty response "refreshToken") "toHaveProperty"
              (expect (toHaveProperty response "accessToken") "toHaveProperty"
                 (read response "refreshToken" (λ refreshToken,
                    expect (notToBeNull refreshToken) "not.toBeNull"
                      (read response "accessToken" (λ accessToken,
                         expect (notToBeNull accessToken) "not.toBeNull"
                           TDone))))))) |}.

Definition not_found_url : string := "https://dummyjson.com/http/404/Hello_Peter".

(** ["error API"] *)
Definition error_API : Test :=
  {| fixture_of := authenticatedApiHelper;
     body_of := with_authenticated (λ authenticatedApiHelper,
       TCall GET (helper authenticatedApiHelper) not_found_url None None None
         (λ response,
            read response "status" (λ status,
              expect (toBeNumber status 404) "toBe" TDone))) |}.

(** The three tests of the carts: one GET, the response is only printed. *)
Definition get_carts (u : string) : Test :=
  {| fixture_of := apiHelper;
     body_of := with_apiHelper (λ apiHelper,
       TCall GET apiHelper u None None None (λ response, TDone)) |}.

Definition get_all_carts : Test := get_carts "https://dummyjson.com/carts".
Definition get_a_single_cart : Test := get_carts "https://dummyjson.com/carts/1".
Definition get_carts_by_a_user : Test :=
  get_carts "https://dummyjson.com/carts/user/11".

End Tests.

(** The report and the events of a test. *)
Definition status (t : Test) (w : World) : TestStatus := (run t w).1.

Definition trace (t : Test) (w : World) : list Event :=
  run_trace (fixture_of t) (body_of t) w.

End ApiTests.

(** The world in which the consumer of [authenticatedApiHelper] starts, for a
    test started in [w] whose login returned the payload [p]. *)
Definition ready_authenticated (w : World) (p : JsValue) : World :=
  emit (EvUse (VAuthenticated (context_of (next_id w) p)))
    (logged_in (set_verdict None w)).

(** The world in which the consumer of [apiHelper] starts. *)
Definition ready_apiHelper (w : World) : World :=
  emit (EvUse (VApiHelper (next_id w)))
    (emit (EvNew (next_id w)) (alloc (set_verdict None w))).

(** How a body that has no call left ends. *)
Definition final (t : TestBody) : option (Exn + unit) :=
  match t with
  | TDone => Some (inr tt)
  | TThrow e => Some (inl e)
  | _ => None
  end.

(** The events a body adds to the log of the world it starts in. *)
Definition body_trace (t : TestBody) (w : World) : list Event :=
  drop (length (log w)) (log (run_body t w).2).

(** ** The page helper ([helpers/page.ts]) *)

Module PageHelper.

(** What a method of the helper can throw: a wait that timed out, a matcher
    that did not pass, an [Error] of the helper's own, the rejection of a
    step handed in by the caller. *)
Inductive PageError :=
| TimeoutError
| ExpectFailed (matcher : string)
| Error (message : string)
| Rejected (reason : string).

Definition PageId : Type := nat.

Inductive LoadState := domcontentloaded | networkidle | load.

(** What the helper does to its pages. *)
Inductive PageEvent :=
| WaitForLoadState (page : PageId) (state : LoadState)
| WaitForTimeout (page : PageId) (ms : Z).

(** What the browser shows to the calls of the helper: whether a selector
    shows up within its timeout, the texts and the number of the elements of
    a locator, the visibility of the elements of a selector, whether a page
    reaches a load state. *)
Record PageView := mkPageView {
  waitForSelector : string → bool;
  allTextContents : string → list string;
  locator_count : string → nat;
  elements_visible : string → list bool;
  waitForLoadState : PageId → LoadState → bool
}.

(** *** [validateTextsBasedOnEnums] *)

(** [set.add(x)] on a set given by its elements in the order of insertion. *)
Definition add_label (seen : list string) (x : string) : list string :=
  if bool_decide (x ∈ seen) then seen else seen ++ [x].

(** [new Set(labels)] *)
Definition new_Set (labels : list string) : list string :=
  fold_left add_label labels [].

Definition quote : string := String (ascii_of_nat 34) "".

(** The message of the error for the entry [key] whose text is missing. *)
Definition validation_message (key expectedText : string)
    (labelSet : list string) : string :=
  "Validation failed for " +:+ quote +:+ key +:+ quote
  +:+ ". Expected text: " +:+ quote +:+ expectedText +:+ quote
  +:+ " not found. Available labels: " +:+ join ", " labelSet.

(** The loop over [Object.entries(enumNames)]; an entry whose value is not a
    string is passed over. *)
Fixpoint check_entries (labelSet : list string)
    (entries : list (string * JsValue)) : PageError + unit :=
  match entries with
  | [] => inr tt
  | (key, JStr expectedText) :: rest =>
      if bool_decide (expectedText ∈ labelSet)
      then check_entries labelSet rest
      else inl (Error (validation_message key expectedText labelSet))
  | _ :: rest => check_entries labelSet rest
  end.

(** [validateTextsBasedOnEnums(selectors, enumNames, page)]; [enumNames] is
    given by its entries, in the order of [Object.entries]. *)
Definition validateTextsBasedOnEnums (page : PageView) (selectors : string)
    (enumNames : list (string * JsValue)) : PageError + unit :=
  if waitForSelector page selectors
  then check_entries (new_Set (allTextContents page selectors)) enumNames
  else inl TimeoutError.

(** *** [captureResponseWhenPageLoad] *)

(** A response the page receives. *)
Record PageResponse := mkPageResponse {
  resp_url : string;
  resp_status : Z;
  resp_body : Body
}.

(** [s.includes(sub)] *)
Fixpoint includes (s sub : string) : bool :=
  String.prefix sub s
  || match s with
     | EmptyString => false
     | String _ s' => includes s' sub
     end.

(** The predicate given to [waitForResponse]. *)
Definition wanted (requestUrl : string) (response : PageResponse) : bool :=
  includes (resp_url response) requestUrl && (resp_status response =? 200)%Z.

(** [page.waitForResponse(predicate)] over the responses that arrive before
    its timeout: the first one the predicate accepts. *)
Definition waitForResponse (arriving : list PageResponse)
    (predicate : PageResponse → bool) : PageError + PageResponse :=
  match List.find predicate arriving with
  | Some response => inr response
  | None => inl TimeoutError
  end.

Inductive ConsoleLine :=
| console_log (response : PageResponse)
| console_error (text : string).

Record Captured := mkCaptured {
  firstResponse : JsValue;
  secondResponse : JsValue
}.

(** [if (secondRequestUrl)]: neither absent nor empty. *)
Definition given (secondRequestUrl : option string) : option string :=
  match secondRequestUrl with
  | Some EmptyString | None => None
  | Some u => Some u
  end.

Section Capture.
(** The message of the error [response.json()] throws on a body. *)
Context (json_error : string → string).

(** [try { data = await response.json() } catch (error) { ... }] *)
Definition json_or_null (which : string) (response : PageResponse)
    : JsValue * list ConsoleLine :=
  match resp_body response with
  | BodyJson j => (j, [])
  | BodyText text =>
      (JNull,
       [console_log response;
        console_error ("Failed to parse " +:+ which +:+ " API response: "
                       +:+ json_error text)])
  end.

(** [captureResponseWhenPageLoad(step, requestUrl, secondRequestUrl)]: the
    result, and what was printed. *)
Definition captureResponseWhenPageLoad (step : PageError + unit)
    (arriving : list PageResponse) (requestUrl : string)
    (secondRequestUrl : option string)
    : (PageError + Captured) * list ConsoleLine :=
  match step with
  | inl e => (inl e, [])
  | inr _ =>
      match waitForResponse arriving (wanted requestUrl) with
      | inl e => (inl e, [])
      | inr first =>
          let d1 := json_or_null "first" first in
          match given secondRequestUrl with
          | None =>
              (inr {| firstResponse := d1.1; secondResponse := JNull |}, d1.2)
          | Some u =>
              match waitForResponse arriving (wanted u) with
              | inl e => (inl e, d1.2)
              | inr second =>
                  let d2 := json_or_null "second" second in
                  (inr {| firstResponse := d1.1; secondResponse := d2.1 |},
                   d1.2 ++ d2.2)
              end
          end
      end
  end.

End Capture.

(** *** Waiting for a page *)

(** A method that may throw, with what it did to the pages. *)
Definition Steps : Type := (PageError + unit) * list PageEvent.

Definition andThen (a : Steps) (b : Steps) : Steps :=
  match a.1 with
  | inr _ => (b.1, a.2 ++ b.2)
  | inl e => (inl e, a.2)
  end.

Definition wait_load (view : PageView) (page : PageId) (state : LoadState)
    : Steps :=
  (if waitForLoadState view page state then inr tt else inl TimeoutError,
   [WaitForLoadState page state]).

Definition wait_timeout (page : PageId) (ms : Z) : Steps :=
  (inr tt, [WaitForTimeout page ms]).

Definition done : Steps := (inr tt, []).

(** The helper of the page [this_page]. *)
Section Helper.
Context (view : PageView) (this_page : PageId).

(** [domcontentloaded()] *)
Definition domcontentloaded_ : Steps := wait_load view this_page domcontentloaded.

(** [waitOnlyForPageLoad(page = this.page)] *)
Definition waitOnlyForPageLoad (page : option PageId) : Steps :=
  let page := default this_page page in
  andThen domcontentloaded_
    (andThen (wait_load view page networkidle) (wait_load view page load)).

(** [waitForPageLoad(string = "", page = this.page)] *)
Definition waitForPageLoad (string : option string) (page : option PageId)
    : Steps :=
  let string := default "" string in
  let page := default this_page page in
  andThen domcontentloaded_
    (andThen (wait_load view page networkidle)
       (andThen (wait_load view page load)
          (if String.eqb string "max" then wait_timeout page 17000
           else if String.eqb string "min" then wait_timeout page 3600
           else if String.eqb string "" then wait_timeout page 9000
           else done))).

(** *** Counting and looking at elements *)

(** [getElementsCount(locator)] *)
Definition getElementsCount (locator : string) : nat := locator_count view locator.

(** [validateElementsCount(locator, length)], for an integer [length]:
    [expect(count).toBe(length)]. *)
Definition validateElementsCount (locator : string) (length : Z)
    : PageError + unit :=
  if (Z.of_nat (getElementsCount locator) =? length)%Z then inr tt
  else inl (ExpectFailed "toBe").

(** [expectCountGreaterThan(locator, number)], for an integer [number]:
    [expect(number).toBeGreaterThan(count)]. *)
Definition expectCountGreaterThan (locator : string) (number : Z)
    : PageError + unit :=
  if (Z.of_nat (getElementsCount locator) <? number)%Z then inr tt
  else inl (ExpectFailed "toBeGreaterThan").

(** The loop of [expectVisibleAllElements] over the elements. *)
Fixpoint expect_all_visible (elementList : list bool) : PageError + unit :=
  match elementList with
  | [] => inr tt
  | isVisible :: rest =>
      if isVisible then expect_all_visible rest else inl (ExpectFailed "toBe")
  end.

(** [expectVisibleAllElements(selector)] *)
Definition expectVisibleAllElements (selector : string) : PageError + unit :=
  expect_all_visible (elements_visible view selector).

End Helper.

End PageHelper.

(** * Properties *)

(** ** Unfolding the monad and the client *)

Lemma bind_eq {A B : Type} (m : M A) (f : A → M B) (w : World) :
  (m ≫= f) w =
  match m w with
  | (inr a, w') => f a w'
  | (inl e, w') => (inl e, w')
  end.
Proof. reflexivity. Qed.

Lemma new_ApiHelper_eq (w : World) :
  new_ApiHelper w = (inr (next_id w), emit (EvNew (next_id w)) (alloc w)).
Proof. reflexivity. Qed.

Lemma sendRequest_eq c m u h b q (w : World) :
  sendRequest c m u h b q w =
  (match network w (calls w) (build_request m u h b q) with
   | NetFault f => inl (TransportError f)
   | NetResponse r => inr (deserialize r)
   end,
   emit (EvRequest c (build_request m u h b q)) (next_call w)).
Proof.
  unfold sendRequest.
  destruct (network w (calls w) (build_request m u h b q)); reflexivity.
Qed.

Lemma call_eq m c u h b q :
  call m c u h b q = sendRequest c m u h (wire_body m b) q.
Proof. destruct m; reflexivity. Qed.

(** ** Traces of test bodies *)

Lemma run_body_trace (t : TestBody) : ∀ w : World, ∃ evs : list Event,
  log (run_body t w).2 = log w ++ evs
  ∧ Forall (λ e, body_event e = true) evs
  ∧ network (run_body t w).2 = network w
  ∧ (next_id w ≤ next_id (run_body t w).2)%nat
  ∧ (calls w ≤ calls (run_body t w).2)%nat.
Proof.
  induction t as [| e | k IH | m c u h b q k IH]; intros w.
  - exists []. simpl. rewrite app_nil_r. auto.
  - exists []. simpl. rewrite app_nil_r. auto.
  - simpl. rewrite bind_eq, new_ApiHelper_eq.
    destruct (IH (next_id w) (emit (EvNew (next_id w)) (alloc w)))
      as (evs & Hlog & Hev & Hnet & Hid & Hcalls).
    exists (EvNew (next_id w) :: evs). rewrite Hlog, Hnet. simpl.
    rewrite <- app_assoc. simpl in *. repeat split; auto with lia.
  - simpl. rewrite bind_eq, call_eq, sendRequest_eq.
    set (req := build_request m u h (wire_body m b) q).
    destruct (network w (calls w) req) as [f | r].
    + exists [EvRequest c req]. simpl. repeat split; auto with lia.
    + destruct (IH (deserialize r) (emit (EvRequest c req) (next_call w)))
        as (evs & Hlog & Hev & Hnet & Hid & Hcalls).
      exists (EvRequest c req :: evs). rewrite Hlog, Hnet. simpl.
      rewrite <- app_assoc. simpl in *. repeat split; auto with lia.
Qed.

Lemma bind_inr {A B : Type} (m : M A) (f : A → M B) (w w' : World) (a : A) :
  m w = (inr a, w') → (m ≫= f) w = f a w'.
Proof. intros H. rewrite bind_eq, H. reflexivity. Qed.

Lemma bind_inl {A B : Type} (m : M A) (f : A → M B) (w w' : World) (e : Exn) :
  m w = (inl e, w') → (m ≫= f) w = (inl e, w').
Proof. intros H. rewrite bind_eq, H. reflexivity. Qed.


Arguments build_request : simpl never.

(** ** The fixture functions, for any [use] *)

Lemma authenticatedApiHelper_fault use (w : World) (f : TransportFault) :
  network w (calls w) login_request = NetFault f →
  authenticatedApiHelper use w = (inl (TransportError f), logged_in w).
Proof.
  intros Hnet. unfold authenticatedApiHelper.
  rewrite (bind_inr _ _ _ _ _ (new_ApiHelper_eq _)).
  erewrite (bind_inr (tell _)); [| reflexivity].
  erewrite bind_inl; [reflexivity |].
  unfold postRequest. rewrite sendRequest_eq. simpl network. simpl calls.
  fold login_request. rewrite Hnet. reflexivity.
Qed.

Lemma authenticatedApiHelper_response use (w : World) (r : Response) :
  network w (calls w) login_request = NetResponse r →
  authenticatedApiHelper use w =
  (if nullish (deserialize r) then (inl (TypeError "accessToken"), logged_in w)
   else (use (VAuthenticated (context_of (next_id w) (deserialize r)))
         ≫= λ _, teardown) (logged_in w)).
Proof.
  intros Hnet. unfold authenticatedApiHelper.
  rewrite (bind_inr _ _ _ _ _ (new_ApiHelper_eq _)).
  erewrite (bind_inr (tell _)); [| reflexivity].
  erewrite (bind_inr (postRequest _ _ _ _ _)); cycle 1.
  { unfold postRequest. rewrite sendRequest_eq. simpl network. simpl calls.
    fold login_request. rewrite Hnet. reflexivity. }
  unfold get_prop. destruct (nullish (deserialize r)) eqn:Hn.
  - reflexivity.
  - reflexivity.
Qed.

Lemma apiHelper_eq use (w : World) :
  apiHelper use w =
  (use (VApiHelper (next_id w)) ≫= λ _, teardown)
    (emit (EvNew (next_id w)) (alloc w)).
Proof. reflexivity. Qed.

(** ** Runs of a test *)

(** What [use] followed by the cleanup phase does to a world. *)
Lemma use_teardown body (v : FixtureValue) (w : World) :
  ∃ evs : list Event,
    let o := outcome_of (run_body (body v) (emit (EvUse v) w)).1 in
    let w' := ((use body v ≫= λ _, teardown) w).2 in
    ((use body v ≫= λ _, teardown) w).1 = inr tt
    ∧ verdict w' = Some o
    ∧ log w' = log w ++ [EvUse v] ++ evs ++ [EvConsumerEnd o; EvPhase TEARDOWN]
    ∧ Forall (λ e, body_event e = true) evs
    ∧ network w' = network w
    ∧ (next_id w ≤ next_id w')%nat
    ∧ (calls w ≤ calls w')%nat.
Proof.
  destruct (run_body_trace (body v) (emit (EvUse v) w))
    as (evs & Hlog & Hev & Hnet & Hid & Hcalls).
  exists evs. simpl. rewrite Hlog, Hnet. simpl.
  rewrite <- !app_assoc. simpl. repeat split; auto.
Qed.

Lemma status_of_outcome (o : Outcome) :
  status_of (Some o) = match o with Completed => Passed | Raised e => TestFailed e end.
Proof. destruct o; reflexivity. Qed.

Lemma runTest_authenticated_ready body (w : World) (r : Response) :
  network w (calls w) login_request = NetResponse r →
  nullish (deserialize r) = false →
  ∃ (evs : list Event) (o : Outcome) (w0 : World),
    let v := VAuthenticated (context_of (next_id w) (deserialize r)) in
    let w' := (runTest authenticatedApiHelper body w).2 in
    run_status authenticatedApiHelper body w = status_of (Some o)
    ∧ o = outcome_of (run_body (body v) w0).1
    ∧ run_trace authenticatedApiHelper body w =
        [EvNew (next_id w); EvPhase LOGGING_IN;
         EvRequest (next_id w) login_request; EvUse v]
        ++ evs ++ [EvConsumerEnd o; EvPhase TEARDOWN; EvPhase DONE]
    ∧ Forall (λ e, body_event e = true) evs
    ∧ network w' = network w
    ∧ (next_id w < next_id w')%nat
    ∧ (calls w < calls w')%nat.
Proof.
  intros Hnet Hnn.
  pose (v := VAuthenticated (context_of (next_id w) (deserialize r))).
  destruct (use_teardown body v (logged_in (set_verdict None w)))
    as (evs & Hres & Hver & Hlog & Hev & Hnw & Hid & Hcalls).
  exists evs, (outcome_of (run_body (body v)
                 (emit (EvUse v) (logged_in (set_verdict None w)))).1),
    (emit (EvUse v) (logged_in (set_verdict None w))).
  unfold run_status, run_trace, runTest.
  rewrite (authenticatedApiHelper_response _ _ r) by exact Hnet.
  simpl next_id. rewrite Hnn. fold v.
  destruct ((use body v ≫= λ _, teardown) (logged_in (set_verdict None w)))
    as [res w1] eqn:Hrun.
  simpl in Hres, Hver, Hlog, Hnw, Hid, Hcalls. subst res. simpl.
  rewrite Hver, Hlog, Hnw. rewrite <- !app_assoc. simpl.
  rewrite drop_app_length. rewrite <- !app_assoc. simpl.
  repeat split; auto with lia.
Qed.

Lemma runTest_authenticated_fault body (w : World) (f : TransportFault) :
  network w (calls w) login_request = NetFault f →
  run_status authenticatedApiHelper body w = SetupFailed (TransportError f)
  ∧ run_trace authenticatedApiHelper body w = failed_trace w.
Proof.
  intros Hnet. unfold run_status, run_trace, runTest.
  rewrite (authenticatedApiHelper_fault _ _ f) by exact Hnet.
  simpl. rewrite <- !app_assoc. simpl. rewrite drop_app_length. auto.
Qed.

Lemma runTest_authenticated_nullish body (w : World) (r : Response) :
  network w (calls w) login_request = NetResponse r →
  nullish (deserialize r) = true →
  run_status authenticatedApiHelper body w = SetupFailed (TypeError "accessToken")
  ∧ run_trace authenticatedApiHelper body w = failed_trace w.
Proof.
  intros Hnet Hn. unfold run_status, run_trace, runTest.
  rewrite (authenticatedApiHelper_response _ _ r) by exact Hnet.
  simpl nullish. rewrite Hn.
  simpl. rewrite <- !app_assoc. simpl. rewrite drop_app_length. auto.
Qed.

Lemma runTest_apiHelper body (w : World) :
  ∃ (evs : list Event) (o : Outcome) (w0 : World),
    let v := VApiHelper (next_id w) in
    let w' := (runTest apiHelper body w).2 in
    run_status apiHelper body w = status_of (Some o)
    ∧ o = outcome_of (run_body (body v) w0).1
    ∧ run_trace apiHelper body w =
        [EvNew (next_id w); EvUse v]
        ++ evs ++ [EvConsumerEnd o; EvPhase TEARDOWN; EvPhase DONE]
    ∧ Forall (λ e, body_event e = true) evs
    ∧ network w' = network w
    ∧ (next_id w < next_id w')%nat.
Proof.
  pose (v := VApiHelper (next_id w)).
  pose (w1 := emit (EvNew (next_id w)) (alloc (set_verdict None w))).
  destruct (use_teardown body v w1)
    as (evs & Hres & Hver & Hlog & Hev & Hnw & Hid & Hcalls).
  exists evs, (outcome_of (run_body (body v) (emit (EvUse v) w1)).1),
    (emit (EvUse v) w1).
  unfold run_status, run_trace, runTest. rewrite apiHelper_eq.
  simpl next_id. fold v. fold w1.
  destruct ((use body v ≫= λ _, teardown) w1) as [res w2] eqn:Hrun.
  simpl in Hres, Hver, Hlog, Hnw, Hid, Hcalls. subst res. simpl.
  rewrite Hver, Hlog, Hnw. rewrite <- !app_assoc. simpl.
  rewrite drop_app_length. rewrite <- !app_assoc. simpl.
  repeat split; auto with lia.
  pose proof (f_equal (λ x, next_id x.2) Hrun) as Hx. simpl in Hx. lia.
Qed.

(** ** Reading traces *)

Lemma body_events_no_phase (evs : list Event) :
  Forall (λ e, body_event e = true) evs → omap phase_of evs = [].
Proof.
  induction 1 as [| e evs He _ IH]; [reflexivity |].
  destruct e; try discriminate He; simpl; exact IH.
Qed.

Lemma body_events_not_yielded (evs : list Event) :
  Forall (λ e, body_event e = true) evs → yielded evs = [].
Proof.
  induction 1 as [| e evs He _ IH]; [reflexivity |].
  destruct e; try discriminate He; simpl; exact IH.
Qed.

Lemma count_app (p : Event → bool) (l1 l2 : list Event) :
  count p (l1 ++ l2) = (count p l1 + count p l2)%nat.
Proof. unfold count. rewrite filter_app, length_app. reflexivity. Qed.

Lemma count_cons (p : Event → bool) (e : Event) (l : list Event) :
  count p (e :: l) = ((if p e then 1 else 0) + count p l)%nat.
Proof.
  unfold count. rewrite filter_cons. destruct (p e) eqn:He.
  - rewrite decide_True by reflexivity. reflexivity.
  - rewrite decide_False by discriminate. reflexivity.
Qed.

Lemma body_events_count (p : Event → bool) (evs : list Event) :
  (∀ e, body_event e = true → p e = false) →
  Forall (λ e, body_event e = true) evs → count p evs = 0%nat.
Proof.
  intros Hp. induction 1 as [| e evs He _ IH]; [reflexivity |].
  rewrite count_cons, (Hp e He), IH. reflexivity.
Qed.

Lemma wf_fresh (w : World) : wf w → fresh (next_id w) w.
Proof. intros Hwf e He Hc. specialize (Hwf e _ He Hc). lia. Qed.

Lemma wf_initial net : wf (initial net).
Proof. intros e c He. simpl in He. inversion He. Qed.

Lemma yielded_app (l1 l2 : list Event) :
  yielded (l1 ++ l2) = yielded l1 ++ yielded l2.
Proof. apply omap_app. Qed.

Lemma lifecycle_ready (pre evs post : list Event) :
  Forall (λ e, body_event e = true) evs →
  lifecycle (pre ++ evs ++ post) = UNSTARTED :: omap phase_of pre ++ omap phase_of post.
Proof.
  intros Hev. unfold lifecycle.
  rewrite !omap_app, (body_events_no_phase evs Hev). reflexivity.
Qed.

Lemma assoc_None {A : Type} (k : string) (l : list (string * A)) :
  has_key k l = false → assoc k l = None.
Proof.
  unfold has_key. intros H. apply bool_decide_eq_false in H.
  induction l as [| [k' v] l IH]; [reflexivity |].
  simpl. destruct (String.eqb_spec k k') as [-> | Hne].
  - exfalso. apply H. simpl. left.
  - apply IH. intros Hin. apply H. simpl. right. exact Hin.
Qed.

Lemma member_missing (v : JsValue) (k : string) :
  has_field v k = false → member v k = JUndefined.
Proof.
  destruct v; try reflexivity. simpl. intros H.
  rewrite (assoc_None _ _ H). reflexivity.
Qed.

Lemma headers_login_request :
  headers login_request = {[ "Content-Type" := "application/json" ]}.
Proof.
  unfold login_request, build_request, effective_headers, json_headers,
    default_headers.
  simpl. apply (idemp_L (∪)).
Qed.

(** Every run of [authenticatedApiHelper] ends in one of two ways. *)
Lemma runTest_authenticated_cases body (w : World) :
  let t := run_trace authenticatedApiHelper body w in
  (t = failed_trace w
   ∧ ∃ e, run_status authenticatedApiHelper body w = SetupFailed e)
  ∨ (∃ v evs o,
       t = [EvNew (next_id w); EvPhase LOGGING_IN;
            EvRequest (next_id w) login_request; EvUse v]
           ++ evs ++ [EvConsumerEnd o; EvPhase TEARDOWN; EvPhase DONE]
       ∧ Forall (λ e, body_event e = true) evs
       ∧ run_status authenticatedApiHelper body w = status_of (Some o)).
Proof.
  destruct (network w (calls w) login_request) as [f | r] eqn:Hnet.
  - left. destruct (runTest_authenticated_fault body w f Hnet) as [Hs Ht].
    split; [exact Ht | eauto].
  - destruct (nullish (deserialize r)) eqn:Hn.
    + left. destruct (runTest_authenticated_nullish body w r Hnet Hn) as [Hs Ht].
      split; [exact Ht | eauto].
    + right.
      destruct (runTest_authenticated_ready body w r Hnet Hn)
        as (evs & o & w0 & Hs & _ & Ht & Hev & _).
      eauto 10.
Qed.

(** The lifecycle of every run of [authenticatedApiHelper] is a path of the
    state machine, from [UNSTARTED] to [DONE]. *)
Lemma lifecycle_is_path body (w : World) :
  lifecycle_path (lifecycle (run_trace authenticatedApiHelper body w)).
Proof.
  destruct (runTest_authenticated_cases body w)
    as [[Ht _] | (v & evs & o & Ht & Hev & _)]; rewrite Ht.
  - repeat constructor.
  - rewrite lifecycle_ready by exact Hev. repeat constructor.
Qed.

(** ** Well-formed worlds *)

Lemma wf_emit (e : Event) (w : World) :
  wf w → (∀ c, c ∈ clients_of e → (c < next_id w)%nat) → wf (emit e w).
Proof.
  intros Hwf He e' c [Hin | ->%list_elem_of_singleton]%elem_of_app Hc.
  - exact (Hwf e' c Hin Hc).
  - exact (He c Hc).
Qed.

Lemma wf_alloc (w : World) : wf w → wf (emit (EvNew (next_id w)) (alloc w)).
Proof.
  intros Hwf. apply wf_emit.
  - intros e c He Hc. specialize (Hwf e c He Hc). simpl. lia.
  - intros c ->%list_elem_of_singleton. simpl. lia.
Qed.

Lemma scoped_mono (n n' : nat) (t : TestBody) :
  scoped n t → (n ≤ n')%nat → scoped n' t.
Proof.
  intros H. revert n'.
  induction H as [| | n k _ IH | n m c u h b q k Hc _ IH]; intros n' Hn.
  - constructor.
  - constructor.
  - constructor. intros c Hc. apply (IH c); lia.
  - constructor; [lia | intros r; apply IH; exact Hn].
Qed.

Lemma run_body_wf (t : TestBody) : ∀ w : World,
  scoped (next_id w) t → wf w → wf (run_body t w).2.
Proof.
  induction t as [| e | k IH | m c u h b q k IH]; intros w Hsc Hwf.
  - exact Hwf.
  - exact Hwf.
  - inversion Hsc as [| | n k' Hk |]; subst.
    simpl. rewrite bind_eq, new_ApiHelper_eq.
    apply IH; [apply Hk; simpl; lia | apply wf_alloc; exact Hwf].
  - inversion Hsc as [| | | n m' c' u' h' b' q' k' Hc Hk]; subst.
    simpl. rewrite bind_eq, call_eq, sendRequest_eq.
    assert (Hw1 : wf (emit (EvRequest c (build_request m u h (wire_body m b) q))
                        (next_call w))).
    { apply wf_emit; [exact Hwf |].
      intros c' ->%list_elem_of_singleton. exact Hc. }
    destruct (network w (calls w) _); [exact Hw1 |].
    apply IH; [apply Hk | exact Hw1].
Qed.

(** A test with the fixture [apiHelper] keeps the world well formed. *)
Lemma runTest_apiHelper_wf body (w : World) :
  (∀ c, (next_id w ≤ c)%nat → scoped (S c) (body (VApiHelper c))) →
  wf w → wf (runTest apiHelper body w).2.
Proof.
  intros Hsc Hwf. unfold runTest. rewrite apiHelper_eq. simpl.
  repeat apply wf_emit; try (intros c []%elem_of_nil).
  apply run_body_wf; [apply Hsc; simpl; lia |].
  apply wf_emit; [apply (wf_alloc (set_verdict None w)); exact Hwf |].
  intros c ->%list_elem_of_singleton. simpl. lia.
Qed.

(** * The claims about the fixtures *)

(** C2, amended.  Every invocation of [authenticatedApiHelper] constructs one
    fresh client and then issues one request through it: the POST of the fixed
    credentials to the login endpoint with [Content-Type: application/json],
    the URL, the header and the credentials being the arguments the fixture
    itself hands to [postRequest], whatever the client does with them.  The
    run then either fails, with nothing yielded, or hands the consumer one
    value.  When the login call returns a payload that is neither [null] nor
    [undefined], the consumer is handed the record made of that very client,
    the [accessToken] and [refreshToken] of the payload, verbatim, and the
    payload itself. *)
Theorem authenticated_provisioning_logs_in_and_yields
    (consumer : FixtureValue → TestBody) (w : World) :
  let c := next_id w in
  let t := run_trace authenticatedApiHelper consumer w in
  (wf w → fresh c w)
  ∧ (∃ rest,
       t = [EvNew c; EvPhase LOGGING_IN; EvRequest c login_request] ++ rest
       ∧ (rest = [EvPhase FAILED; EvPhase DONE]
          ∨ ∃ v evs o,
              rest = [EvUse v] ++ evs
                     ++ [EvConsumerEnd o; EvPhase TEARDOWN; EvPhase DONE]
              ∧ Forall (λ e, body_event e = true) evs))
  ∧ authenticatedApiHelper = authenticatedApiHelper_with postRequest
  ∧ (∀ (post : PostRequest) (use : FixtureValue → M unit) (w0 : World),
       authenticatedApiHelper_with post use w0 =
       match post (next_id w0) "https://dummyjson.com/auth/login"
               (Some {[ "Content-Type" := "application/json" ]})
               (Some (JObj [("username", JStr "emilys");
                            ("password", JStr "emilyspass")]))
               None
               (emit (EvPhase LOGGING_IN) (emit (EvNew (next_id w0)) (alloc w0)))
       with
       | (inl e, w1) => (inl e, w1)
       | (inr p, w1) =>
           if nullish p then (inl (TypeError "accessToken"), w1)
           else (use (VAuthenticated
                        {| helper := next_id w0;
                           accessToken := member p "accessToken";
                           refreshToken := member p "refreshToken";
                           response := p |}) ≫= λ _, teardown) w1
       end)
  ∧ method login_request = POST
  ∧ url login_request = "https://dummyjson.com/auth/login"
  ∧ headers login_request = {[ "Content-Type" := "application/json" ]}
  ∧ body login_request =
      Some (JObj [("username", JStr "emilys"); ("password", JStr "emilyspass")])
  ∧ (∀ r, network w (calls w) login_request = NetResponse r →
       nullish (deserialize r) = false →
       ∃ evs o,
         t = [EvNew c; EvPhase LOGGING_IN; EvRequest c login_request;
              EvUse (VAuthenticated
                       {| helper := c;
                          accessToken := member (deserialize r) "accessToken";
                          refreshToken := member (deserialize r) "refreshToken";
                          response := deserialize r |})]
             ++ evs ++ [EvConsumerEnd o; EvPhase TEARDOWN; EvPhase DONE]
         ∧ Forall (λ e, body_event e = true) evs)
  ∧ (∀ fields k x, assoc k fields = Some x → member (JObj fields) k = x).
Proof.
  intros c t.
  split; [apply wf_fresh |].
  split.
  { destruct (runTest_authenticated_cases consumer w)
      as [[Ht _] | (v & evs & o & Ht & Hev & _)].
    - exists [EvPhase FAILED; EvPhase DONE]. split; [exact Ht | left; reflexivity].
    - exists ([EvUse v] ++ evs
              ++ [EvConsumerEnd o; EvPhase TEARDOWN; EvPhase DONE]).
      split; [exact Ht | right; exists v, evs, o; split; [reflexivity | exact Hev]]. }
  split; [reflexivity |].
  split.
  { intros post use w0. unfold authenticatedApiHelper_with.
    rewrite (bind_inr _ _ _ _ _ (new_ApiHelper_eq w0)).
    rewrite bind_eq. cbn [tell]. rewrite bind_eq.
    unfold login_url, json_headers, loginData.
    destruct (post _ _ _ _ _ _) as [[e | p] w1]; [reflexivity |].
    rewrite bind_eq. unfold lift, get_prop.
    destruct (nullish p); reflexivity. }
  split; [reflexivity |]. split; [reflexivity |].
  split; [exact headers_login_request |]. split; [reflexivity |].
  split.
  { intros r Hnet Hnn.
    destruct (runTest_authenticated_ready consumer w r Hnet Hnn)
      as (evs & o & w0 & _ & _ & Ht & Hev & _).
    exists evs, o; split; [exact Ht | exact Hev]. }
  intros fields k x Hx. simpl. rewrite Hx. reflexivity.
Qed.

Lemma authenticated_provisioning_witness :
  let w := initial (always (NetResponse (ok sample_login))) in
  yielded (run_trace authenticatedApiHelper (λ _, TDone) w) =
    [VAuthenticated
       {| helper := 0;
          accessToken := JStr "eyJhbGciOi.access";
          refreshToken := JStr "eyJhbGciOi.refresh";
          response := sample_login |}].
Proof.
  intros w.
  destruct (authenticated_provisioning_logs_in_and_yields (λ _, TDone) w)
    as (_ & _ & _ & _ & _ & _ & _ & _ & Hyield & _).
  destruct (Hyield (ok sample_login) eq_refl eq_refl) as (evs & o & Ht & Hev).
  rewrite Ht, !yielded_app, (body_events_not_yielded evs Hev). reflexivity.
Defined.

(** C2, as first stated, has the consumer handed the record at every
    invocation.  A login call that answers [null], or that times out, fails
    the fixture after its one request, and nothing is yielded. *)
Lemma provisioning_can_yield_nothing :
  let answers_null := initial (always (NetResponse (ok JNull))) in
  let times_out := initial (always (NetFault Timeout)) in
  let run w := run_trace authenticatedApiHelper (λ _, TDone) w in
  yielded (run answers_null) = []
  ∧ count is_request (run answers_null) = 1
  ∧ run_status authenticatedApiHelper (λ _, TDone) answers_null
    = SetupFailed (TypeError "accessToken")
  ∧ yielded (run times_out) = []
  ∧ count is_request (run times_out) = 1
  ∧ run_status authenticatedApiHelper (λ _, TDone) times_out
    = SetupFailed (TransportError Timeout).
Proof. vm_compute. repeat split; reflexivity. Qed.

(** C3. In every run of [authenticatedApiHelper] that reaches the consumer,
    however the consumer ends (normal completion, failed assertion,
    unexpected fault), the cleanup phase runs exactly once, directly after
    the consumer has finished. *)
Theorem cleanup_runs_once_after_consumer
    (body : FixtureValue → TestBody) (w : World) (r : Response) :
  network w (calls w) login_request = NetResponse r →
  nullish (deserialize r) = false →
  let t := run_trace authenticatedApiHelper body w in
  ∃ (before : list Event) (o : Outcome) (w0 : World),
    t = before ++ [EvConsumerEnd o; EvPhase TEARDOWN; EvPhase DONE]
    ∧ o = outcome_of
            (run_body
               (body (VAuthenticated (context_of (next_id w) (deserialize r))))
               w0).1
    ∧ count is_teardown before = 0%nat
    ∧ count is_teardown t = 1%nat
    ∧ run_status authenticatedApiHelper body w =
        match o with Completed => Passed | Raised e => TestFailed e end.
Proof.
  intros Hnet Hnn t.
  destruct (runTest_authenticated_ready body w r Hnet Hnn)
    as (evs & o & w0 & Hs & Ho & Ht & Hev & _).
  assert (Hz : count is_teardown evs = 0%nat).
  { apply body_events_count; [| exact Hev]. intros [] He; try discriminate He; reflexivity. }
  exists ([EvNew (next_id w); EvPhase LOGGING_IN;
           EvRequest (next_id w) login_request;
           EvUse (VAuthenticated (context_of (next_id w) (deserialize r)))]
          ++ evs), o, w0.
  subst t. rewrite Ht.
  split; [rewrite <- !app_assoc; reflexivity |].
  split; [exact Ho |].
  split; [rewrite count_app, Hz; reflexivity |].
  split; [rewrite !count_app, Hz; reflexivity |].
  rewrite Hs. apply status_of_outcome.
Qed.

Lemma cleanup_runs_once_witness :
  let w := initial (always (NetResponse (ok sample_login))) in
  count is_teardown
    (run_trace authenticatedApiHelper (λ _, TThrow (AssertionError "expect")) w)
  = 1%nat
  ∧ count is_teardown
      (run_trace authenticatedApiHelper (λ _, TThrow (Fault "boom")) w) = 1%nat
  ∧ count is_teardown (run_trace authenticatedApiHelper (λ _, TDone) w) = 1%nat.
Proof.
  intros w. split; [| split].
  - destruct (cleanup_runs_once_after_consumer
                (λ _, TThrow (AssertionError "expect")) w (ok sample_login)
                eq_refl eq_refl) as (? & ? & ? & _ & _ & _ & H & _).
    exact H.
  - destruct (cleanup_runs_once_after_consumer
                (λ _, TThrow (Fault "boom")) w (ok sample_login)
                eq_refl eq_refl) as (? & ? & ? & _ & _ & _ & H & _).
    exact H.
  - destruct (cleanup_runs_once_after_consumer
                (λ _, TDone) w (ok sample_login)
                eq_refl eq_refl) as (? & ? & ? & _ & _ & _ & H & _).
    exact H.
Defined.

(** C4. When the login call of [authenticatedApiHelper] raises, the consumer
    never runs: the lifecycle is UNSTARTED, LOGGING_IN, FAILED, DONE and
    never READY; one login request was sent and no other; the test is
    reported as a setup failure, which is no failure of the consumer. *)
Theorem failed_login_aborts_before_consumer
    (body : FixtureValue → TestBody) (w : World) (f : TransportFault) :
  network w (calls w) login_request = NetFault f →
  let t := run_trace authenticatedApiHelper body w in
  yielded t = []
  ∧ count is_use t = 0%nat
  ∧ lifecycle t = [UNSTARTED; LOGGING_IN; FAILED; DONE]
  ∧ lifecycle_path (lifecycle t)
  ∧ (READY ∉ lifecycle t)
  ∧ count is_request t = 1%nat
  ∧ run_status authenticatedApiHelper body w = SetupFailed (TransportError f)
  ∧ (∀ e, run_status authenticatedApiHelper body w ≠ TestFailed e).
Proof.
  intros Hnet t.
  destruct (runTest_authenticated_fault body w f Hnet) as [Hs Ht].
  subst t. rewrite Ht, Hs.
  split; [reflexivity |]. split; [reflexivity |]. split; [reflexivity |].
  split; [repeat constructor |].
  split; [| split; [reflexivity | split; [reflexivity | discriminate]]].
  unfold failed_trace, lifecycle. simpl.
  rewrite !elem_of_cons, elem_of_nil. intros H.
  repeat (destruct H as [H | H]; [discriminate H |]). exact H.
Qed.

Lemma failed_login_witness :
  let w := initial (always (NetFault Timeout)) in
  run_status authenticatedApiHelper (λ _, TDone) w
  = SetupFailed (TransportError Timeout).
Proof.
  intros w.
  destruct (failed_login_aborts_before_consumer (λ _, TDone) w Timeout eq_refl)
    as (_ & _ & _ & _ & _ & _ & H & _).
  exact H.
Defined.

(** C5, as the code has it.  Two invocations of [authenticatedApiHelper], one
    after the other in the same worker, construct two distinct clients and
    send two login requests, the second one a new call; the tokens of each
    context are those of the response to its own login, whatever the other
    login returned.  (The token pairs differ when the server's answers do.) *)
Theorem provisioning_twice_is_isolated
    (body1 body2 : FixtureValue → TestBody) (w : World) (r1 r2 : Response) :
  let w1 := (runTest authenticatedApiHelper body1 w).2 in
  network w (calls w) login_request = NetResponse r1 →
  nullish (deserialize r1) = false →
  network w1 (calls w1) login_request = NetResponse r2 →
  nullish (deserialize r2) = false →
  let t1 := run_trace authenticatedApiHelper body1 w in
  let t2 := run_trace authenticatedApiHelper body2 w1 in
  yielded t1 = [VAuthenticated (context_of (next_id w) (deserialize r1))]
  ∧ yielded t2 = [VAuthenticated (context_of (next_id w1) (deserialize r2))]
  ∧ next_id w ≠ next_id w1
  ∧ (calls w < calls w1)%nat
  ∧ network w1 = network w
  ∧ (∃ rest, t1 = [EvNew (next_id w); EvPhase LOGGING_IN;
                   EvRequest (next_id w) login_request] ++ rest)
  ∧ (∃ rest, t2 = [EvNew (next_id w1); EvPhase LOGGING_IN;
                   EvRequest (next_id w1) login_request] ++ rest).
Proof.
  intros w1 Hnet1 Hnn1 Hnet2 Hnn2 t1 t2.
  destruct (runTest_authenticated_ready body1 w r1 Hnet1 Hnn1)
    as (evs1 & o1 & w01 & _ & _ & Ht1 & Hev1 & Hnw & Hid & Hcalls).
  destruct (runTest_authenticated_ready body2 w1 r2 Hnet2 Hnn2)
    as (evs2 & o2 & w02 & _ & _ & Ht2 & Hev2 & _).
  subst t1 t2. rewrite Ht1, Ht2.
  rewrite !yielded_app, (body_events_not_yielded _ Hev1),
    (body_events_not_yielded _ Hev2).
  split; [reflexivity |]. split; [reflexivity |].
  split; [fold w1 in Hid; lia |]. split; [exact Hcalls |]. split; [exact Hnw |].
  split; eexists; reflexivity.
Qed.

Lemma provisioning_twice_witness :
  let w := initial (λ n _, NetResponse (ok (JObj [("accessToken", JNum (Z.of_nat n))]))) in
  let w1 := (runTest authenticatedApiHelper (λ _, TDone) w).2 in
  yielded (run_trace authenticatedApiHelper (λ _, TDone) w1) =
    [VAuthenticated
       {| helper := 1; accessToken := JNum 1; refreshToken := JUndefined;
          response := JObj [("accessToken", JNum 1)] |}].
Proof.
  intros w w1.
  destruct (provisioning_twice_is_isolated (λ _, TDone) (λ _, TDone) w
              (ok (JObj [("accessToken", JNum 0)]))
              (ok (JObj [("accessToken", JNum 1)]))
              eq_refl eq_refl eq_refl eq_refl) as (_ & H & _).
  exact H.
Defined.

(** C5, as stated, fails: a server that gives the same answer to both logins
    makes the two invocations yield the same token pair. *)
Lemma same_answers_give_same_tokens :
  let w := initial (always (NetResponse (ok sample_login))) in
  let w1 := (runTest authenticatedApiHelper (λ _, TDone) w).2 in
  ∃ ctx1 ctx2,
    yielded (run_trace authenticatedApiHelper (λ _, TDone) w)
      = [VAuthenticated ctx1]
    ∧ yielded (run_trace authenticatedApiHelper (λ _, TDone) w1)
      = [VAuthenticated ctx2]
    ∧ accessToken ctx1 = accessToken ctx2
    ∧ refreshToken ctx1 = refreshToken ctx2.
Proof.
  intros w w1. eexists _, _.
  split; [vm_compute; reflexivity |].
  split; [vm_compute; reflexivity |].
  split; reflexivity.
Qed.

(** C9, as the code has it.  When the login call returns a payload other
    than [null] and [undefined], the fixture does not fail: the consumer runs
    with a context whose [accessToken] and [refreshToken] are [undefined]
    wherever the payload lacks the field, and whose [response] is the
    payload. *)
Theorem login_payload_without_tokens_still_yields
    (body : FixtureValue → TestBody) (w : World) (r : Response) :
  network w (calls w) login_request = NetResponse r →
  nullish (deserialize r) = false →
  ∃ (ctx : AuthCtx) (o : Outcome),
    yielded (run_trace authenticatedApiHelper body w) = [VAuthenticated ctx]
    ∧ run_status authenticatedApiHelper body w =
        match o with Completed => Passed | Raised e => TestFailed e end
    ∧ (has_field (deserialize r) "accessToken" = false →
       accessToken ctx = JUndefined)
    ∧ (has_field (deserialize r) "refreshToken" = false →
       refreshToken ctx = JUndefined)
    ∧ response ctx = deserialize r.
Proof.
  intros Hnet Hnn.
  destruct (runTest_authenticated_ready body w r Hnet Hnn)
    as (evs & o & w0 & Hs & _ & Ht & Hev & _).
  exists (context_of (next_id w) (deserialize r)), o.
  rewrite Ht, !yielded_app, (body_events_not_yielded _ Hev), Hs.
  split; [reflexivity |]. split; [apply status_of_outcome |].
  split; [apply member_missing |]. split; [apply member_missing | reflexivity].
Qed.

Lemma login_error_payload_witness :
  let w := initial (always (NetResponse
                              {| status := 400; content := BodyJson sample_error |})) in
  ∃ (ctx : AuthCtx) (o : Outcome),
    yielded (run_trace authenticatedApiHelper (λ _, TDone) w) = [VAuthenticated ctx]
    ∧ run_status authenticatedApiHelper (λ _, TDone) w =
        match o with Completed => Passed | Raised e => TestFailed e end
    ∧ accessToken ctx = JUndefined
    ∧ refreshToken ctx = JUndefined.
Proof.
  intros w.
  destruct (login_payload_without_tokens_still_yields (λ _, TDone) w
              {| status := 400; content := BodyJson sample_error |}
              eq_refl eq_refl) as (ctx & o & Hy & Hs & Ha & Hr & _).
  exists ctx, o. auto.
Defined.

(** C9, as stated, fails: the payload [null] has neither field, and the
    fixture fails with a [TypeError] before the consumer runs. *)
Lemma null_login_payload_fails_setup :
  let w := initial (always (NetResponse (ok JNull))) in
  network w (calls w) login_request = NetResponse (ok JNull)
  ∧ has_field (deserialize (ok JNull)) "accessToken" = false
  ∧ has_field (deserialize (ok JNull)) "refreshToken" = false
  ∧ run_status authenticatedApiHelper (λ _, TDone) w
    = SetupFailed (TypeError "accessToken")
  ∧ yielded (run_trace authenticatedApiHelper (λ _, TDone) w) = [].
Proof.
  intros w. repeat split; vm_compute; reflexivity.
Qed.

(** C10. The fixture [apiHelper] constructs a client and hands it to the
    consumer without any HTTP call of its own; the client is one that no
    earlier event mentions, and the next test gets a different one. *)
Theorem apiHelper_yields_fresh_client
    (body body' : FixtureValue → TestBody) (w : World) :
  let c := next_id w in
  let t := run_trace apiHelper body w in
  let w1 := (runTest apiHelper body w).2 in
  (∃ evs o,
     t = [EvNew c; EvUse (VApiHelper c)]
         ++ evs ++ [EvConsumerEnd o; EvPhase TEARDOWN; EvPhase DONE]
     ∧ Forall (λ e, body_event e = true) evs)
  ∧ yielded t = [VApiHelper c]
  ∧ (wf w → fresh c w)
  ∧ yielded (run_trace apiHelper body' w1) = [VApiHelper (next_id w1)]
  ∧ next_id w1 ≠ c.
Proof.
  intros c t w1.
  destruct (runTest_apiHelper body w)
    as (evs & o & w0 & _ & _ & Ht & Hev & _ & Hid).
  destruct (runTest_apiHelper body' w1)
    as (evs' & o' & w0' & _ & _ & Ht' & Hev' & _).
  subst t. rewrite Ht, Ht'.
  rewrite !yielded_app, (body_events_not_yielded _ Hev),
    (body_events_not_yielded _ Hev').
  split; [exists evs, o; auto |]. split; [reflexivity |].
  split; [apply wf_fresh |]. split; [reflexivity |].
  fold w1 in Hid. subst c. lia.
Qed.

(** * The claims about the request client *)


Lemma call_log m c u h b q (w : World) :
  log (call m c u h b q w).2 =
  log w ++ [EvRequest c (build_request m u h (wire_body m b) q)].
Proof. rewrite call_eq, sendRequest_eq. reflexivity. Qed.






(** ** What [encodeURIComponent] writes *)










(** C7. A POST, PUT or PATCH with a body is sent with
    [Content-Type: application/json] unless the caller gives a
    [Content-Type] of its own; every header of the caller is sent as given. *)
Theorem json_content_type_by_default (m : Method) (c : ClientId) (u : string)
    (h : option (gmap string string)) (x : JsValue) (q : option QueryParams)
    (w : World) :
  m ∈ [POST; PUT; PATCH] →
  ∃ req,
    log (call m c u h (Some x) q w).2 = log w ++ [EvRequest c req]
    ∧ body req = Some x
    ∧ (default ∅ h !! "Content-Type" = None →
       headers req !! "Content-Type" = Some "application/json")
    ∧ (∀ k v, default ∅ h !! k = Some v → headers req !! k = Some v)
    ∧ (∀ k, k ≠ "Content-Type" → headers req !! k = default ∅ h !! k).
Proof.
  intros Hm. eexists. split; [apply call_log |].
  assert (Hb : wire_body m (Some x) = Some x).
  { rewrite !elem_of_cons, elem_of_nil in Hm.
    destruct Hm as [-> | [-> | [-> | []]]]; reflexivity. }
  unfold build_request. simpl. rewrite Hb. simpl. unfold default_headers.
  split; [reflexivity |].
  split; [| split].
  - intros Hnone. rewrite lookup_union_r by exact Hnone.
    apply lookup_singleton_eq.
  - intros k v Hk. apply lookup_union_Some_l. exact Hk.
  - intros k Hk. rewrite lookup_union, lookup_singleton_ne by congruence.
    destruct (default ∅ h !! k); reflexivity.
Qed.

Lemma json_content_type_witness :
  (∃ req,
     log (postRequest 0 "https://dummyjson.com/auth/refresh" None
            (Some (JObj [("refreshToken", JStr "r")])) None
            (initial (always (NetFault Dns)))).2 = [EvRequest 0 req]
     ∧ headers req !! "Content-Type" = Some "application/json")
  ∧ (∃ req,
       log (putRequest 0 "https://dummyjson.com/carts/1"
              (Some {[ "Content-Type" := "text/plain" ]})
              (Some (JStr "x")) None
              (initial (always (NetFault Dns)))).2 = [EvRequest 0 req]
       ∧ headers req !! "Content-Type" = Some "text/plain").
Proof.
  split.
  - destruct (json_content_type_by_default POST 0
                "https://dummyjson.com/auth/refresh" None
                (JObj [("refreshToken", JStr "r")]) None
                (initial (always (NetFault Dns))))
      as (req & Hlog & _ & Hd & _).
    { apply list_elem_of_here. }
    exists req. split; [exact Hlog | apply Hd; reflexivity].
  - destruct (json_content_type_by_default PUT 0
                "https://dummyjson.com/carts/1"
                (Some {[ "Content-Type" := "text/plain" ]})
                (JStr "x") None
                (initial (always (NetFault Dns))))
      as (req & Hlog & _ & _ & Hk & _).
    { apply list_elem_of_further, list_elem_of_here. }
    exists req. split; [exact Hlog | apply Hk; reflexivity].
Defined.

(** * The claims about the login schema *)

Section SchemaFacts.
Import Zod.
Context (fmt : StringFormats).

Lemma string_checks (p : list string) (s : string) (checks : list StringCheck) :
  (checks ≫= check_string fmt p s) = []
  ↔ forallb (λ c, match c with
                  | CheckEmail => is_email fmt s
                  | CheckUrl => is_url fmt s
                  end) checks = true.
Proof.
  induction checks as [| c checks IH]; [done |].
  change ((c :: checks) ≫= check_string fmt p s)
    with (check_string fmt p s c ++ (checks ≫= check_string fmt p s)).
  simpl forallb. rewrite andb_true_iff, <- IH. split.
  - intros [H1 H2]%app_eq_nil. split; [| exact H2].
    destruct c; simpl in H1.
    + destruct (is_email fmt s); [reflexivity | discriminate].
    + destruct (is_url fmt s); [reflexivity | discriminate].
  - intros [H1 H2]. rewrite H2, app_nil_r.
    destruct c; simpl; rewrite H1; reflexivity.
Qed.

Lemma primitive_ok (p : list string) (t : ZodType) (v : JsValue) :
  primitive t = true → conforms fmt t v = true →
  parse_at fmt p t v = ([], Some v).
Proof.
  destruct t as [checks | | values | shape uk]; try discriminate; intros _.
  - destruct v; try discriminate. simpl. intros H.
    apply (string_checks p) in H. rewrite H. reflexivity.
  - destruct v; try discriminate. reflexivity.
  - destruct v; try discriminate. simpl. intros ->. reflexivity.
Qed.

Lemma primitive_bad (p : list string) (t : ZodType) (v : JsValue) :
  primitive t = true → conforms fmt t v = false →
  (parse_at fmt p t v).1 ≠ [].
Proof.
  destruct t as [checks | | values | shape uk]; try discriminate; intros _.
  - destruct v; try (simpl; discriminate). simpl. intros H Hnil.
    apply string_checks in Hnil. congruence.
  - destruct v; simpl; discriminate.
  - destruct v; try (simpl; discriminate). simpl. intros ->. discriminate.
Qed.

Lemma primitive_undefined (p : list string) (t : ZodType) :
  primitive t = true →
  parse_at fmt p t JUndefined =
  ([mkIssue (invalid_type (expected_of t) ty_undefined) p], None).
Proof. destruct t; try discriminate; reflexivity. Qed.

Lemma primitive_defined (t : ZodType) (v : JsValue) :
  primitive t = true → conforms fmt t v = true → is_undefined v = false.
Proof. destruct t, v; try discriminate; reflexivity. Qed.

(** The parsed fields of an object whose declared fields all conform. *)
Lemma shape_ok (p : list string) (data : list (string * JsValue))
    (shape : list (string * ZodType)) :
  Forall (λ kt, primitive kt.2 = true) shape →
  "__proto__" ∉ shape.*1 →
  shape_conforms (conforms fmt) data shape = true →
  parse_shape (parse_at fmt) p data shape =
  ([], Some ((λ k, (k, default JUndefined (assoc k data))) <$> shape.*1)).
Proof.
  induction 1 as [| [k t] shape Hprim _ IH]; [reflexivity |].
  intros Hproto Hok. simpl in Hproto, Hok.
  apply not_elem_of_cons in Hproto as [Hk Hproto].
  apply andb_true_iff in Hok as [Hfield Hok].
  destruct (assoc k data) as [x |] eqn:Hx; [| discriminate].
  simpl. rewrite Hx. simpl.
  rewrite (primitive_ok _ _ _ Hprim Hfield), (IH Hproto Hok). simpl.
  unfold keep. rewrite (primitive_defined _ _ Hprim Hfield).
  destruct (String.eqb_spec k "__proto__") as [-> | _]; [done |].
  reflexivity.
Qed.

Lemma shape_bad (p : list string) (data : list (string * JsValue))
    (shape : list (string * ZodType)) :
  Forall (λ kt, primitive kt.2 = true) shape →
  shape_conforms (conforms fmt) data shape = false →
  (parse_shape (parse_at fmt) p data shape).1 ≠ [].
Proof.
  induction 1 as [| [k t] shape Hprim _ IH]; [discriminate |].
  simpl. intros Hbad Hnil. apply app_eq_nil in Hnil as [H1 H2].
  apply andb_false_iff in Hbad as [Hbad | Hbad].
  - destruct (assoc k data) as [x |] eqn:Hx; simpl in H1.
    + exact (primitive_bad _ _ _ Hprim Hbad H1).
    + rewrite (primitive_undefined _ _ Hprim) in H1. discriminate.
  - exact (IH Hbad H2).
Qed.

(** A declared field the object lacks is reported at its own path. *)
Lemma shape_missing (p : list string) (data : list (string * JsValue))
    (shape : list (string * ZodType)) (k : string) (t : ZodType) :
  Forall (λ kt, primitive kt.2 = true) shape →
  (k, t) ∈ shape → assoc k data = None →
  mkIssue (invalid_type (expected_of t) ty_undefined) (p ++ [k])
  ∈ (parse_shape (parse_at fmt) p data shape).1.
Proof.
  induction 1 as [| [k' t'] shape Hprim _ IH]; [inversion 1 |].
  intros [[= <- <-] | Hin]%elem_of_cons Hk; simpl; apply elem_of_app.
  - left. rewrite Hk. simpl. rewrite (primitive_undefined _ _ Hprim). left.
  - right. exact (IH Hin Hk).
Qed.

Lemma extra_keys_nil (shape : list (string * ZodType))
    (data : list (string * JsValue)) :
  extra_keys shape data = []
  ↔ forallb (λ k, bool_decide (k ∈ shape.*1)) data.*1 = true.
Proof.
  unfold extra_keys. induction (data.*1) as [| k ks IH]; [done |].
  rewrite filter_cons. simpl. rewrite andb_true_iff, <- IH.
  destruct (decide (k ∉ shape.*1)) as [Hk | Hk].
  - rewrite bool_decide_eq_true. split; [discriminate | tauto].
  - apply dec_stable in Hk. rewrite bool_decide_eq_true. tauto.
Qed.

(** [parse] on an object, for a strict schema whose fields are primitive. *)
Lemma parse_strict_flat (shape : list (string * ZodType))
    (data : list (string * JsValue)) :
  Forall (λ kt, primitive kt.2 = true) shape →
  "__proto__" ∉ shape.*1 →
  parse fmt (ZodObject shape Strict) (JObj data) =
  if conforms fmt (ZodObject shape Strict) (JObj data)
  then inr (JObj ((λ k, (k, default JUndefined (assoc k data))) <$> shape.*1))
  else inl (ZodError (parse_at fmt [] (ZodObject shape Strict) (JObj data)).1).
Proof.
  intros Hprim Hproto. unfold parse. simpl.
  destruct (shape_conforms (conforms fmt) data shape) eqn:Hok; simpl.
  - rewrite (shape_ok [] _ _ Hprim Hproto Hok). simpl.
    destruct (forallb _ _) eqn:Hall.
    + apply extra_keys_nil in Hall. rewrite Hall. simpl.
      rewrite app_nil_r. reflexivity.
    + destruct (extra_keys shape data) eqn:He; [| reflexivity].
      apply extra_keys_nil in He. congruence.
  - pose proof (shape_bad [] _ _ Hprim Hok) as Hbad.
    destruct (parse_shape (parse_at fmt) [] data shape) as [issues val].
    simpl in *. destruct issues as [| i issues]; [done |]. reflexivity.
Qed.

Lemma parse_fails_on_issue (t : ZodType) (v : JsValue) (i : ZodIssue) :
  i ∈ (parse_at fmt [] t v).1 →
  parse fmt t v = inl (ZodError (parse_at fmt [] t v).1).
Proof.
  unfold parse. destruct (parse_at fmt [] t v) as [[| j issues] val]; simpl.
  - inversion 1.
  - reflexivity.
Qed.

Lemma assoc_fmap_keys (f : string → JsValue) (ks : list string) (k : string) :
  assoc k ((λ k, (k, f k)) <$> ks) = if decide (k ∈ ks) then Some (f k) else None.
Proof.
  induction ks as [| k' ks IH]; [reflexivity |].
  rewrite fmap_cons. cbn [assoc]. destruct (String.eqb_spec k k') as [-> | Hne].
  - rewrite decide_True by left. reflexivity.
  - rewrite IH. destruct (decide (k ∈ ks)) as [Hin | Hin].
    + rewrite decide_True by (right; exact Hin). reflexivity.
    + rewrite decide_False; [reflexivity |].
      intros [? | ?]%elem_of_cons; contradiction.
Qed.

End SchemaFacts.

Section LoginSchema.
Import Zod.
Context (fmt : StringFormats).

Lemma shape_conforms_spec (f : ZodType → JsValue → bool)
    (data : list (string * JsValue)) (shape : list (string * ZodType)) :
  shape_conforms f data shape = true
  ↔ ∀ k t, (k, t) ∈ shape → ∃ x, assoc k data = Some x ∧ f t x = true.
Proof.
  induction shape as [| [k t] shape IH]; simpl.
  - split; [intros _ k t H; inversion H | reflexivity].
  - rewrite andb_true_iff, IH. split.
    + intros [Hk Hrest] k' t' [[= -> ->] | Hin]%elem_of_cons.
      * destruct (assoc k data) as [x |]; [eauto | discriminate].
      * exact (Hrest k' t' Hin).
    + intros H. split.
      * destruct (H k t) as (x & -> & Hx); [left | exact Hx].
      * intros k' t' Hin. apply H. right. exact Hin.
Qed.

Lemma login_shape_flat :
  Forall (λ kt : string * ZodType, primitive kt.2 = true)
    [("accessToken", ZodString []); ("refreshToken", ZodString []);
     ("id", ZodNumber); ("username", ZodString []);
     ("email", ZodString [CheckEmail]); ("firstName", ZodString []);
     ("lastName", ZodString []); ("gender", ZodEnum ["male"; "female"]);
     ("image", ZodString [CheckUrl])].
Proof. repeat constructor. Qed.

Lemma login_no_proto : "__proto__" ∉ declared LOGIN_API_SCHEMA.
Proof.
  cbv [declared shape_of LOGIN_API_SCHEMA fmap list_fmap fst].
  rewrite !elem_of_cons, elem_of_nil. intros H.
  repeat (destruct H as [H | H]; [discriminate H |]). exact H.
Qed.

Lemma parse_login_object (data : list (string * JsValue)) :
  parse fmt LOGIN_API_SCHEMA (JObj data) =
  if conforms fmt LOGIN_API_SCHEMA (JObj data)
  then inr (JObj (pick LOGIN_API_SCHEMA data))
  else inl (ZodError (parse_at fmt [] LOGIN_API_SCHEMA (JObj data)).1).
Proof. apply parse_strict_flat; [exact login_shape_flat | exact login_no_proto]. Qed.

Lemma parse_login_not_object (v : JsValue) :
  (∀ data, v ≠ JObj data) →
  parse fmt LOGIN_API_SCHEMA v =
  inl (ZodError [mkIssue (invalid_type ExpObject (typeof v)) []])
  ∧ conforms fmt LOGIN_API_SCHEMA v = false.
Proof. destruct v; try (split; reflexivity). intros H. destruct (H fields eq_refl). Qed.

Lemma strict_issues (p : list string) (shape : list (string * ZodType))
    (data : list (string * JsValue)) :
  (parse_at fmt p (ZodObject shape Strict) (JObj data)).1 =
  (parse_shape (parse_at fmt) p data shape).1
  ++ match extra_keys shape data with
     | [] => []
     | _ :: _ => [mkIssue (unrecognized_keys (extra_keys shape data)) p]
     end.
Proof. simpl. destruct (extra_keys shape data); reflexivity. Qed.

Lemma forallb_bool_decide (P : string → Prop) `{∀ k, Decision (P k)}
    (l : list string) :
  forallb (λ k, bool_decide (P k)) l = true ↔ ∀ k, k ∈ l → P k.
Proof.
  induction l as [| x l IH]; simpl.
  - split; [intros _ k Hk; inversion Hk | reflexivity].
  - rewrite andb_true_iff, bool_decide_eq_true, IH. split.
    + intros [Hx Hl] k [-> | Hk]%elem_of_cons; auto.
    + intros Hall. split; [apply Hall; left | intros k Hk; apply Hall; right; exact Hk].
Qed.

Lemma conforms_login (v : JsValue) :
  conforms fmt LOGIN_API_SCHEMA v = true
  ↔ ∃ data, v = JObj data
      ∧ (∀ k t, (k, t) ∈ shape_of LOGIN_API_SCHEMA →
           ∃ x, assoc k data = Some x ∧ conforms fmt t x = true)
      ∧ (∀ k, k ∈ data.*1 → k ∈ declared LOGIN_API_SCHEMA).
Proof.
  destruct v as [| | | | | | data];
    try (split; [discriminate | intros (data & [=] & _)]).
  change (conforms fmt LOGIN_API_SCHEMA (JObj data))
    with (shape_conforms (conforms fmt) data (shape_of LOGIN_API_SCHEMA)
          && forallb (λ k, bool_decide (k ∈ declared LOGIN_API_SCHEMA)) data.*1).
  rewrite andb_true_iff, shape_conforms_spec, forallb_bool_decide. split.
  - intros [H1 H2]. exists data. auto.
  - intros (data' & [= <-] & H1 & H2). auto.
Qed.

End LoginSchema.

(** C8. [LOGIN_API_SCHEMA.parse] returns a value exactly for the objects that
    have every declared field with a value of the declared form and no other
    field; the value returned has the fields of the payload.  A payload
    without a declared field (for one, [email]) is rejected with an issue at
    the path of that field, which was received [undefined]; a payload with a
    field that is not declared is rejected with an issue naming the key. *)
Theorem login_schema_is_strict (fmt : Zod.StringFormats) :
  let schema := Zod.LOGIN_API_SCHEMA in
  (∀ v, (∃ v', Zod.parse fmt schema v = inr v')
        ↔ ∃ data, v = JObj data
            ∧ (∀ k t, (k, t) ∈ Zod.shape_of schema →
                 ∃ x, assoc k data = Some x ∧ Zod.conforms fmt t x = true)
            ∧ (∀ k, k ∈ data.*1 → k ∈ Zod.declared schema))
  ∧ (∀ v v', Zod.parse fmt schema v = inr v' →
       ∃ data, v = JObj data
         ∧ v' = JObj (Zod.pick schema data)
         ∧ ∀ k, member v' k = member v k)
  ∧ (∀ data k t, (k, t) ∈ Zod.shape_of schema → assoc k data = None →
       ∃ issues,
         Zod.parse fmt schema (JObj data) = inl (Zod.ZodError issues)
         ∧ Zod.mkIssue (Zod.invalid_type (Zod.expected_of t) Zod.ty_undefined) [k]
           ∈ issues)
  ∧ (∀ data k, k ∈ data.*1 → k ∉ Zod.declared schema →
       ∃ issues keys,
         Zod.parse fmt schema (JObj data) = inl (Zod.ZodError issues)
         ∧ Zod.mkIssue (Zod.unrecognized_keys keys) [] ∈ issues
         ∧ k ∈ keys).
Proof.
  intros schema.
  assert (Hparse : ∀ v, (∃ v', Zod.parse fmt schema v = inr v')
                        ↔ Zod.conforms fmt schema v = true).
  { intros v. destruct v as [| | | | | | data];
      try (split; [intros [v' Hv']; discriminate Hv' | discriminate]).
    subst schema. rewrite parse_login_object.
    destruct (Zod.conforms fmt Zod.LOGIN_API_SCHEMA (JObj data)).
    - split; eauto.
    - split; [intros [v' Hv']; discriminate Hv' | discriminate]. }
  split; [intros v; rewrite Hparse; apply conforms_login |].
  split; [| split].
  - intros v v' Hv.
    assert (Hc : Zod.conforms fmt schema v = true) by (apply Hparse; eauto).
    pose proof Hc as (data & -> & _ & Hextra)%conforms_login.
    subst schema. rewrite parse_login_object, Hc in Hv.
    injection Hv as <-. exists data. split; [reflexivity |].
    split; [reflexivity |]. intros k. unfold Zod.pick, member.
    rewrite assoc_fmap_keys.
    destruct (decide (k ∈ Zod.declared Zod.LOGIN_API_SCHEMA)) as [Hk | Hk].
    + reflexivity.
    + rewrite assoc_None; [reflexivity |].
      apply bool_decide_eq_false. intros Hin. exact (Hk (Hextra k Hin)).
  - intros data k t Hin Hk. eexists. split.
    + eapply parse_fails_on_issue. subst schema. unfold Zod.LOGIN_API_SCHEMA.
      rewrite strict_issues. apply elem_of_app. left.
      apply (shape_missing fmt [] data _ k t login_shape_flat Hin Hk).
    + subst schema. unfold Zod.LOGIN_API_SCHEMA. rewrite strict_issues.
      apply elem_of_app. left.
      apply (shape_missing fmt [] data _ k t login_shape_flat Hin Hk).
  - intros data k Hin Hk.
    assert (He : k ∈ Zod.extra_keys (Zod.shape_of schema) data).
    { apply list_elem_of_filter. split; assumption. }
    assert (Hi : Zod.mkIssue
                   (Zod.unrecognized_keys (Zod.extra_keys (Zod.shape_of schema) data)) []
                 ∈ (Zod.parse_at fmt [] schema (JObj data)).1).
    { subst schema. unfold Zod.LOGIN_API_SCHEMA. rewrite strict_issues.
      apply elem_of_app. right.
      change (Zod.shape_of (Zod.ZodObject ?s _)) with s in He.
      destruct (Zod.extra_keys _ data); [inversion He | left]. }
    eexists _, _. split; [exact (parse_fails_on_issue fmt _ _ _ Hi) |].
    split; [exact Hi | exact He].
Qed.

Lemma login_schema_witness :
  let fmt := Zod.mkFormats (λ s, bool_decide ("@"%char ∈ list_ascii_of_string s))
                           (λ s, String.prefix "http" s) in
  let no_email := [("accessToken", JStr "a"); ("refreshToken", JStr "r");
                   ("id", JNum 1); ("username", JStr "emilys");
                   ("firstName", JStr "Emily"); ("lastName", JStr "Johnson");
                   ("gender", JStr "female");
                   ("image", JStr "https://dummyjson.com/icon/emilys/128")] in
  ∃ issues,
    Zod.parse fmt Zod.LOGIN_API_SCHEMA (JObj no_email) = inl (Zod.ZodError issues)
    ∧ Zod.mkIssue (Zod.invalid_type Zod.ExpString Zod.ty_undefined) ["email"]
      ∈ issues.
Proof.
  intros fmt no_email.
  destruct (login_schema_is_strict fmt) as (_ & _ & Hmissing & _).
  apply (Hmissing no_email "email" (Zod.ZodString [Zod.CheckEmail])).
  - do 4 apply list_elem_of_further. apply list_elem_of_here.
  - reflexivity.
Defined.

(** * More about the fixtures and the tests *)

(** ** Runs, with the world the consumer starts in *)

Lemma body_trace_eq (t : TestBody) (w : World) (evs : list Event) :
  log (run_body t w).2 = log w ++ evs → body_trace t w = evs.
Proof. intros H. unfold body_trace. rewrite H. apply drop_app_length. Qed.

Lemma use_teardown_eq body (v : FixtureValue) (w : World) :
  (use body v ≫= λ _, teardown) w =
  (inr tt,
   emit (EvPhase TEARDOWN)
     (emit (EvConsumerEnd (outcome_of (run_body (body v) (emit (EvUse v) w)).1))
        (set_verdict (Some (outcome_of (run_body (body v) (emit (EvUse v) w)).1))
           (run_body (body v) (emit (EvUse v) w)).2))).
Proof. reflexivity. Qed.

Lemma runTest_authenticated_run body (w : World) (r : Response) :
  network w (calls w) login_request = NetResponse r →
  nullish (deserialize r) = false →
  let v := VAuthenticated (context_of (next_id w) (deserialize r)) in
  let w0 := ready_authenticated w (deserialize r) in
  let o := outcome_of (run_body (body v) w0).1 in
  run_status authenticatedApiHelper body w = status_of (Some o)
  ∧ run_trace authenticatedApiHelper body w =
      [EvNew (next_id w); EvPhase LOGGING_IN;
       EvRequest (next_id w) login_request; EvUse v]
      ++ body_trace (body v) w0
      ++ [EvConsumerEnd o; EvPhase TEARDOWN; EvPhase DONE].
Proof.
  intros Hnet Hnn v w0 o.
  destruct (run_body_trace (body v) w0) as (evs0 & Hlog0 & _).
  rewrite (body_trace_eq _ _ _ Hlog0).
  unfold run_status, run_trace, runTest.
  rewrite (authenticatedApiHelper_response _ _ r) by exact Hnet.
  cbn [next_id set_verdict]. rewrite Hnn, use_teardown_eq.
  change (emit (EvUse (VAuthenticated (context_of (next_id w) (deserialize r))))
            (logged_in (set_verdict None w))) with w0.
  fold v. fold o. cbn [fst snd verdict emit set_verdict log].
  split; [reflexivity |].
  rewrite Hlog0. unfold w0, ready_authenticated, logged_in.
  cbn [log emit next_call alloc set_verdict next_id].
  rewrite <- !app_assoc. rewrite drop_app_length. reflexivity.
Qed.

Lemma runTest_apiHelper_run body (w : World) :
  let v := VApiHelper (next_id w) in
  let w0 := ready_apiHelper w in
  let o := outcome_of (run_body (body v) w0).1 in
  run_status apiHelper body w = status_of (Some o)
  ∧ run_trace apiHelper body w =
      [EvNew (next_id w); EvUse v]
      ++ body_trace (body v) w0
      ++ [EvConsumerEnd o; EvPhase TEARDOWN; EvPhase DONE].
Proof.
  intros v w0 o.
  destruct (run_body_trace (body v) w0) as (evs0 & Hlog0 & _).
  rewrite (body_trace_eq _ _ _ Hlog0).
  unfold run_status, run_trace, runTest. rewrite apiHelper_eq.
  cbn [next_id set_verdict]. rewrite use_teardown_eq.
  change (emit (EvUse (VApiHelper (next_id w)))
            (emit (EvNew (next_id w)) (alloc (set_verdict None w)))) with w0.
  fold v. fold o. cbn [fst snd verdict emit set_verdict log].
  split; [reflexivity |].
  rewrite Hlog0. unfold w0, ready_apiHelper.
  cbn [log emit next_call alloc set_verdict next_id].
  rewrite <- !app_assoc. rewrite drop_app_length. reflexivity.
Qed.

(** One call in a body. *)
Lemma run_body_call m c u h b q k (w : World) :
  run_body (TCall m c u h b q k) w =
  match network w (calls w) (build_request m u h (wire_body m b) q) with
  | NetFault f =>
      (inl (TransportError f),
       emit (EvRequest c (build_request m u h (wire_body m b) q)) (next_call w))
  | NetResponse r =>
      run_body (k (deserialize r))
        (emit (EvRequest c (build_request m u h (wire_body m b) q)) (next_call w))
  end.
Proof.
  simpl. rewrite bind_eq, call_eq, sendRequest_eq.
  destruct (network w (calls w) _); reflexivity.
Qed.

(** A body without calls leaves the world as it is. *)
Lemma run_body_expect (pass : bool) (matcher : string) (k : TestBody) (w : World) :
  run_body (ApiTests.expect pass matcher k) w =
  if pass then run_body k w else (inl (AssertionError matcher), w).
Proof. destruct pass; reflexivity. Qed.

Lemma body_trace_nil (t : TestBody) (w : World) :
  (run_body t w).2 = w → body_trace t w = [].
Proof.
  intros H. apply body_trace_eq. rewrite H, app_nil_r. reflexivity.
Qed.

(** ** The tests of the carts *)

(** X1. A test of the carts sends one GET of its URL, without headers, body
    or query, through the client of its fixture, and asserts nothing: it
    passes on any response, whatever the status or the payload, and fails
    only when the transport does. *)
Theorem cart_tests_pass_on_any_response (u : string) (w : World) :
  let t := ApiTests.get_carts u in
  let c := next_id w in
  let req := build_request GET u None None None in
  (∀ r, network w (calls w) req = NetResponse r → ApiTests.status t w = Passed)
  ∧ (∀ f, network w (calls w) req = NetFault f →
          ApiTests.status t w = TestFailed (TransportError f))
  ∧ (∃ o, ApiTests.trace t w =
            [EvNew c; EvUse (VApiHelper c); EvRequest c req;
             EvConsumerEnd o; EvPhase TEARDOWN; EvPhase DONE])
  ∧ url req = u ∧ headers req = ∅ ∧ body req = None.
Proof.
  intros t c req.
  destruct (runTest_apiHelper_run (ApiTests.body_of t) w) as [Hs Ht].
  change (run_status apiHelper (ApiTests.body_of t) w)
    with (ApiTests.status t w) in Hs.
  change (run_trace apiHelper (ApiTests.body_of t) w)
    with (ApiTests.trace t w) in Ht.
  cbn [ApiTests.body_of t ApiTests.get_carts ApiTests.with_apiHelper] in Hs, Ht.
  unfold body_trace in Ht. rewrite run_body_call in Hs, Ht.
  change (network (ready_apiHelper w)) with (network w) in Hs, Ht.
  change (calls (ready_apiHelper w)) with (calls w) in Hs, Ht.
  change (build_request GET u None (wire_body GET None) None) with req in Hs, Ht.
  split; [| split; [| split]].
  - intros r Hr. rewrite Hr in Hs. exact Hs.
  - intros f Hf. rewrite Hf in Hs. exact Hs.
  - rewrite Ht.
    destruct (network w (calls w) req); eexists;
      cbn [run_body mret M_ret ret snd log emit next_call];
      rewrite drop_app_length; reflexivity.
  - repeat split.
Qed.

(** ** The tests of the private API *)

Lemma parse_login_cases (fmt : Zod.StringFormats) (p : JsValue) :
  (Zod.conforms fmt Zod.LOGIN_API_SCHEMA p = true
   ∧ ∃ data, p = JObj data
       ∧ Zod.parse fmt Zod.LOGIN_API_SCHEMA p
         = inr (JObj (Zod.pick Zod.LOGIN_API_SCHEMA data)))
  ∨ (Zod.conforms fmt Zod.LOGIN_API_SCHEMA p = false
     ∧ ∃ issues, Zod.parse fmt Zod.LOGIN_API_SCHEMA p = inl (Zod.ZodError issues)).
Proof.
  destruct p as [| | | | | | data];
    try (right; split; [reflexivity | eexists; reflexivity]).
  rewrite parse_login_object.
  destruct (Zod.conforms fmt Zod.LOGIN_API_SCHEMA (JObj data)); eauto.
Qed.

Lemma conforming_login_has_tokens (fmt : Zod.StringFormats) (p : JsValue) :
  Zod.conforms fmt Zod.LOGIN_API_SCHEMA p = true →
  ∃ a r, member p "accessToken" = JStr a ∧ member p "refreshToken" = JStr r.
Proof.
  intros (data & -> & Hfields & _)%conforms_login.
  destruct (Hfields "accessToken" (Zod.ZodString [])) as (x & Hx & Hcx);
    [apply list_elem_of_here |].
  destruct (Hfields "refreshToken" (Zod.ZodString [])) as (y & Hy & Hcy);
    [apply list_elem_of_further, list_elem_of_here |].
  destruct x; try discriminate Hcx. destruct y; try discriminate Hcy.
  unfold member. rewrite Hx, Hy. eauto.
Qed.

(** X2. The test "Login user and get tokens" passes exactly when the login
    call returned a payload that conforms to [LOGIN_API_SCHEMA]; its two
    [toBeDefined] checks never decide the outcome of a conforming payload.
    The test sends no request of its own. *)
Theorem login_test_passes_iff_payload_conforms
    (fmt : Zod.StringFormats) (w : World) :
  let t := ApiTests.login_user_and_get_tokens fmt in
  (ApiTests.status t w = Passed
   ↔ ∃ r, network w (calls w) login_request = NetResponse r
          ∧ Zod.conforms fmt Zod.LOGIN_API_SCHEMA (deserialize r) = true)
  ∧ count is_request (ApiTests.trace t w) = 1%nat.
Proof.
  intros t.
  destruct (network w (calls w) login_request) as [f | r] eqn:Hnet.
  - destruct (runTest_authenticated_fault (ApiTests.body_of t) w f Hnet)
      as [Hs Ht].
    change (ApiTests.status t w = SetupFailed (TransportError f)) in Hs.
    change (ApiTests.trace t w = failed_trace w) in Ht.
    rewrite Hs, Ht. split; [| reflexivity].
    split; [discriminate | intros (r & [=] & _)].
  - destruct (nullish (deserialize r)) eqn:Hn.
    + destruct (runTest_authenticated_nullish (ApiTests.body_of t) w r Hnet Hn)
        as [Hs Ht].
      change (ApiTests.status t w = SetupFailed (TypeError "accessToken")) in Hs.
      change (ApiTests.trace t w = failed_trace w) in Ht.
      rewrite Hs, Ht. split; [| reflexivity].
      split; [discriminate |]. intros (r' & [= <-] & Hc).
      destruct (deserialize r); discriminate.
    + destruct (runTest_authenticated_run (ApiTests.body_of t) w r Hnet Hn)
        as [Hs Ht].
      change (run_status authenticatedApiHelper (ApiTests.body_of t) w)
        with (ApiTests.status t w) in Hs.
      change (run_trace authenticatedApiHelper (ApiTests.body_of t) w)
        with (ApiTests.trace t w) in Ht.
      set (p := deserialize r) in *.
      set (w0 := ready_authenticated w p) in *.
      cbn [ApiTests.body_of t ApiTests.login_user_and_get_tokens
             ApiTests.with_authenticated context_of accessToken refreshToken
             response] in Hs, Ht.
      assert (Hbody : ∃ res,
                 run_body
                   (ApiTests.expect (ApiTests.toBeDefined (member p "accessToken"))
                      "toBeDefined"
                      (ApiTests.expect (ApiTests.toBeDefined (member p "refreshToken"))
                         "toBeDefined"
                         match Zod.parse fmt Zod.LOGIN_API_SCHEMA p with
                         | inl _ => TThrow (Fault "ZodError")
                         | inr parsed =>
                             ApiTests.expect (ApiTests.toBeTruthy parsed)
                               "toBeTruthy" TDone
                         end)) w0 = (res, w0)
                 ∧ (res = inr tt
                    ↔ Zod.conforms fmt Zod.LOGIN_API_SCHEMA p = true)).
      { destruct (parse_login_cases fmt p)
          as [[Hc (data & Hp & Hparse)] | [Hc (issues & Hparse)]];
          rewrite Hparse, Hc.
        - destruct (conforming_login_has_tokens fmt p Hc) as (a & b & -> & ->).
          exists (inr tt). split; [reflexivity | tauto].
        - rewrite !run_body_expect.
          destruct (ApiTests.toBeDefined (member p "accessToken"));
            [destruct (ApiTests.toBeDefined (member p "refreshToken")) |];
            eexists; (split; [reflexivity | split; discriminate]). }
      destruct Hbody as (res & Hrun & Hres).
      unfold body_trace in Ht. rewrite Hrun in Hs, Ht. cbn [fst snd] in Hs, Ht.
      rewrite drop_all in Ht. rewrite Ht. split.
      * rewrite Hs. split.
        -- intros Hpass. exists r. split; [reflexivity |]. apply Hres.
           destruct res as [e | []]; [discriminate Hpass | reflexivity].
        -- intros (r' & [= <-] & Hc). apply Hres in Hc. subst res. reflexivity.
      * reflexivity.
Qed.

Lemma run_body_final (t : TestBody) (res : Exn + unit) (w : World) :
  final t = Some res → run_body t w = (res, w).
Proof. destruct t; try discriminate; intros [= <-]; reflexivity. Qed.

(** A test of [authenticatedApiHelper] whose body is one call followed by
    assertions. *)
Lemma authenticated_one_call (f : AuthCtx → TestBody) (w : World) (r : Response)
    m u h b q (k : JsValue → TestBody) :
  network w (calls w) login_request = NetResponse r →
  nullish (deserialize r) = false →
  let ctx := context_of (next_id w) (deserialize r) in
  f ctx = TCall m (next_id w) u h b q k →
  (∀ x, is_Some (final (k x))) →
  let req := build_request m u h (wire_body m b) q in
  let res :=
    match network w (S (calls w)) req with
    | NetFault f => inl (TransportError f)
    | NetResponse r2 => default (inr tt) (final (k (deserialize r2)))
    end in
  run_status authenticatedApiHelper (ApiTests.with_authenticated f) w
  = status_of (Some (outcome_of res))
  ∧ run_trace authenticatedApiHelper (ApiTests.with_authenticated f) w
    = [EvNew (next_id w); EvPhase LOGGING_IN;
       EvRequest (next_id w) login_request; EvUse (VAuthenticated ctx);
       EvRequest (next_id w) req;
       EvConsumerEnd (outcome_of res); EvPhase TEARDOWN; EvPhase DONE].
Proof.
  intros Hnet Hnn ctx Hf Hk req res.
  destruct (runTest_authenticated_run (ApiTests.with_authenticated f) w r Hnet Hnn)
    as [Hs Ht].
  cbn [ApiTests.with_authenticated] in Hs, Ht. fold ctx in Hs, Ht.
  rewrite Hf in Hs, Ht. unfold body_trace in Ht.
  rewrite run_body_call in Hs, Ht.
  change (network (ready_authenticated w (deserialize r))) with (network w) in Hs, Ht.
  change (calls (ready_authenticated w (deserialize r))) with (S (calls w)) in Hs, Ht.
  fold req in Hs, Ht. subst res.
  destruct (network w (S (calls w)) req) as [e | r2].
  - cbn [fst snd] in Hs, Ht. split; [exact Hs |]. rewrite Ht.
    cbn [log emit next_call]. rewrite drop_app_length. reflexivity.
  - destruct (Hk (deserialize r2)) as [res Hres].
    rewrite (run_body_final _ _ _ Hres) in Hs, Ht. rewrite Hres.
    cbn [fst snd default] in Hs, Ht |- *. split; [exact Hs |]. rewrite Ht.
    cbn [log emit next_call]. rewrite drop_app_length. reflexivity.
Qed.

Lemma final_expect (pass : bool) (matcher : string) (k : TestBody) :
  final (ApiTests.expect pass matcher k) =
  if pass then final k else Some (inl (AssertionError matcher)).
Proof. destruct pass; reflexivity. Qed.

Lemma final_read (v : JsValue) (key : string) (f : JsValue → TestBody) :
  final (ApiTests.read v key f) =
  if nullish v then Some (inl (TypeError key)) else final (f (member v key)).
Proof. unfold ApiTests.read, get_prop. destruct (nullish v); reflexivity. Qed.

Lemma status_passed (res : Exn + unit) :
  status_of (Some (outcome_of res)) = Passed ↔ res = inr tt.
Proof. destruct res as [e | []]; simpl; split; congruence. Qed.

(** X3. The test "Refresh auth session" posts the refresh token of the login
    payload, as it was received, to the refresh endpoint through the client
    that logged in.  On a response it passes exactly when the payload is an
    object that has both token fields and neither is [null]; the HTTP status
    plays no role.  A transport fault fails the test. *)
Theorem refresh_test_posts_the_login_refresh_token (w : World) (r : Response) :
  network w (calls w) login_request = NetResponse r →
  nullish (deserialize r) = false →
  let t := ApiTests.refresh_auth_session in
  let c := next_id w in
  let req :=
    build_request POST "https://dummyjson.com/auth/refresh"
      (Some {[ "Content-Type" := "application/json" ]})
      (Some (JObj [("refreshToken", member (deserialize r) "refreshToken")]))
      None in
  (∃ o, ApiTests.trace t w =
          [EvNew c; EvPhase LOGGING_IN; EvRequest c login_request;
           EvUse (VAuthenticated (context_of c (deserialize r)));
           EvRequest c req;
           EvConsumerEnd o; EvPhase TEARDOWN; EvPhase DONE])
  ∧ (∀ r2, network w (S (calls w)) req = NetResponse r2 →
       (ApiTests.status t w = Passed
        ↔ has_field (deserialize r2) "refreshToken" = true
          ∧ has_field (deserialize r2) "accessToken" = true
          ∧ member (deserialize r2) "refreshToken" ≠ JNull
          ∧ member (deserialize r2) "accessToken" ≠ JNull))
  ∧ (∀ f, network w (S (calls w)) req = NetFault f →
       ApiTests.status t w = TestFailed (TransportError f)).
Proof.
  intros Hnet Hnn t c req.
  pose (k := λ response : JsValue,
    ApiTests.expect (ApiTests.toHaveProperty response "refreshToken") "toHaveProperty"
      (ApiTests.expect (ApiTests.toHaveProperty response "accessToken") "toHaveProperty"
         (ApiTests.read response "refreshToken" (λ refreshToken,
            ApiTests.expect (ApiTests.notToBeNull refreshToken) "not.toBeNull"
              (ApiTests.read response "accessToken" (λ accessToken,
                 ApiTests.expect (ApiTests.notToBeNull accessToken) "not.toBeNull"
                   TDone)))))).
  assert (Hfinal : ∀ x, ∃ res, final (k x) = Some res
            ∧ (res = inr tt
               ↔ has_field x "refreshToken" = true
                 ∧ has_field x "accessToken" = true
                 ∧ member x "refreshToken" ≠ JNull
                 ∧ member x "accessToken" ≠ JNull)).
  { intros x. unfold k, ApiTests.toHaveProperty.
    repeat (first [rewrite final_expect | rewrite final_read]; cbv beta).
    cbn [final].
    destruct x as [| | | | | | data];
      try (eexists; split; [reflexivity |];
           split; [discriminate | intros [[=] _]]).
    cbn [nullish].
    destruct (has_field (JObj data) "refreshToken");
      [| eexists; split; [reflexivity |];
         split; [discriminate | intros [[=] _]]].
    destruct (has_field (JObj data) "accessToken");
      [| eexists; split; [reflexivity |];
         split; [discriminate | intros (_ & [=] & _)]].
    destruct (member (JObj data) "refreshToken") eqn:Hrt;
      destruct (member (JObj data) "accessToken") eqn:Hat;
      cbn [ApiTests.notToBeNull];
      eexists; (split; [reflexivity |]);
      (split; [try discriminate; intros _; repeat split; discriminate
              | try reflexivity; intros (_ & _ & H1 & H2); congruence]). }
  destruct (authenticated_one_call
              (λ ctx, TCall POST (helper ctx) ApiTests.refresh_url
                        (Some {[ "Content-Type" := "application/json" ]})
                        (Some (JObj [("refreshToken", refreshToken ctx)]))
                        None k)
              w r POST ApiTests.refresh_url
              (Some {[ "Content-Type" := "application/json" ]})
              (Some (JObj [("refreshToken", member (deserialize r) "refreshToken")]))
              None k Hnet Hnn eq_refl)
    as [Hs Ht].
  { intros x. destruct (Hfinal x) as (res & -> & _). eauto. }
  change (ApiTests.status t w = status_of (Some (outcome_of
            match network w (S (calls w)) req with
            | NetFault f => inl (TransportError f)
            | NetResponse r2 => default (inr ()) (final (k (deserialize r2)))
            end))) in Hs.
  split; [eexists; exact Ht |]. split.
  - intros r2 Hr2. rewrite Hs, Hr2.
    destruct (Hfinal (deserialize r2)) as (res & -> & Hres).
    rewrite status_passed. exact Hres.
  - intros f Hf. rewrite Hs, Hf. reflexivity.
Qed.

(** X4. The test "Get current auth user" sends one GET of the current-user
    endpoint through the client that logged in, with the single header
    [Authorization: Bearer ] followed by the [accessToken] of the login
    payload, converted to a string; no [Content-Type] and no body go with it.
    On a response it passes exactly when the [username] of the payload is the
    string ["emilys"]. *)
Theorem current_user_test_sends_the_bearer_token
    (ToString : JsValue → string) (w : World) (r : Response) :
  network w (calls w) login_request = NetResponse r →
  nullish (deserialize r) = false →
  let t := ApiTests.get_current_auth_user ToString in
  let c := next_id w in
  let bearer := "Bearer " +:+ ToString (member (deserialize r) "accessToken") in
  let req :=
    build_request GET "https://dummyjson.com/auth/me"
      (Some {[ "Authorization" := bearer ]}) None None in
  (∃ o, ApiTests.trace t w =
          [EvNew c; EvPhase LOGGING_IN; EvRequest c login_request;
           EvUse (VAuthenticated (context_of c (deserialize r)));
           EvRequest c req;
           EvConsumerEnd o; EvPhase TEARDOWN; EvPhase DONE])
  ∧ headers req = {[ "Authorization" := bearer ]}
  ∧ body req = None
  ∧ (∀ tok, member (deserialize r) "accessToken" = JStr tok →
            ToString (JStr tok) = tok → bearer = "Bearer " +:+ tok)
  ∧ (∀ r2, network w (S (calls w)) req = NetResponse r2 →
       (ApiTests.status t w = Passed
        ↔ member (deserialize r2) "username" = JStr "emilys"))
  ∧ (∀ f, network w (S (calls w)) req = NetFault f →
       ApiTests.status t w = TestFailed (TransportError f)).
Proof.
  intros Hnet Hnn t c bearer req.
  pose (k := λ response : JsValue,
    ApiTests.read response "username" (λ username,
      ApiTests.expect (ApiTests.toEqualString username ApiTests.loginData_username)
        "toEqual" TDone)).
  assert (Hfinal : ∀ x, ∃ res, final (k x) = Some res
            ∧ (res = inr tt ↔ member x "username" = JStr "emilys")).
  { intros x. unfold k.
    repeat (first [rewrite final_expect | rewrite final_read]; cbv beta).
    cbn [final].
    destruct (nullish x) eqn:Hn.
    - eexists. split; [reflexivity |].
      split; [discriminate | destruct x; discriminate].
    - destruct (member x "username") as [| | | | s | |];
        try (eexists; split; [reflexivity |]; split; discriminate).
      cbn [ApiTests.toEqualString]. unfold ApiTests.loginData_username.
      destruct (String.eqb_spec s "emilys") as [-> | Hne];
        eexists; (split; [reflexivity |]); split; congruence. }
  destruct (authenticated_one_call
              (λ ctx, TCall GET (helper ctx) ApiTests.me_url
                        (Some {[ "Authorization" :=
                                   "Bearer " +:+ ToString (accessToken ctx) ]})
                        None None k)
              w r GET ApiTests.me_url (Some {[ "Authorization" := bearer ]})
              None None k Hnet Hnn eq_refl)
    as [Hs Ht].
  { intros x. destruct (Hfinal x) as (res & -> & _). eauto. }
  change (ApiTests.status t w = status_of (Some (outcome_of
            match network w (S (calls w)) req with
            | NetFault f => inl (TransportError f)
            | NetResponse r2 => default (inr ()) (final (k (deserialize r2)))
            end))) in Hs.
  split; [eexists; exact Ht |].
  split; [reflexivity |]. split; [reflexivity |].
  split; [intros tok Htok Hstr; subst bearer; rewrite Htok, Hstr; reflexivity |].
  split.
  - intros r2 Hr2. rewrite Hs, Hr2.
    destruct (Hfinal (deserialize r2)) as (res & -> & Hres).
    rewrite status_passed. exact Hres.
  - intros f Hf. rewrite Hs, Hf. reflexivity.
Qed.

(** X5. The test "error API" logs in first and then sends one GET of the
    404 path, without headers; on a response it passes exactly when the
    [status] of the payload is the number 404.  So it passes on a response
    that is not JSON exactly when the HTTP status is 404, and on a JSON
    response according to the body alone. *)
Theorem error_test_passes_on_status_404 (w : World) (r : Response) :
  network w (calls w) login_request = NetResponse r →
  nullish (deserialize r) = false →
  let t := ApiTests.error_API in
  let c := next_id w in
  let req :=
    build_request GET "https://dummyjson.com/http/404/Hello_Peter"
      None None None in
  (∃ o, ApiTests.trace t w =
          [EvNew c; EvPhase LOGGING_IN; EvRequest c login_request;
           EvUse (VAuthenticated (context_of c (deserialize r)));
           EvRequest c req;
           EvConsumerEnd o; EvPhase TEARDOWN; EvPhase DONE])
  ∧ headers req = ∅
  ∧ (∀ r2, network w (S (calls w)) req = NetResponse r2 →
       (ApiTests.status t w = Passed
        ↔ member (deserialize r2) "status" = JNum 404))
  ∧ (∀ s text,
       network w (S (calls w)) req
       = NetResponse {| status := s; content := BodyText text |} →
       (ApiTests.status t w = Passed ↔ s = 404%Z))
  ∧ (∀ s j,
       network w (S (calls w)) req
       = NetResponse {| status := s; content := BodyJson j |} →
       (ApiTests.status t w = Passed ↔ member j "status" = JNum 404)).
Proof.
  intros Hnet Hnn t c req.
  pose (k := λ response : JsValue,
    ApiTests.read response "status" (λ status,
      ApiTests.expect (ApiTests.toBeNumber status 404) "toBe" TDone)).
  assert (Hfinal : ∀ x, ∃ res, final (k x) = Some res
            ∧ (res = inr tt ↔ member x "status" = JNum 404)).
  { intros x. unfold k.
    repeat (first [rewrite final_expect | rewrite final_read]; cbv beta).
    cbn [final].
    destruct (nullish x) eqn:Hn.
    - eexists. split; [reflexivity |].
      split; [discriminate | destruct x; discriminate].
    - destruct (member x "status") as [| | | n | | |];
        try (eexists; split; [reflexivity |]; split; discriminate).
      cbn [ApiTests.toBeNumber].
      destruct (Z.eqb_spec n 404) as [-> | Hne];
        eexists; (split; [reflexivity |]); split; congruence. }
  destruct (authenticated_one_call
              (λ ctx, TCall GET (helper ctx) ApiTests.not_found_url
                        None None None k)
              w r GET ApiTests.not_found_url None None None k Hnet Hnn eq_refl)
    as [Hs Ht].
  { intros x. destruct (Hfinal x) as (res & -> & _). eauto. }
  change (ApiTests.status t w = status_of (Some (outcome_of
            match network w (S (calls w)) req with
            | NetFault f => inl (TransportError f)
            | NetResponse r2 => default (inr ()) (final (k (deserialize r2)))
            end))) in Hs.
  assert (Hany : ∀ r2, network w (S (calls w)) req = NetResponse r2 →
            (ApiTests.status t w = Passed
             ↔ member (deserialize r2) "status" = JNum 404)).
  { intros r2 Hr2. rewrite Hs, Hr2.
    destruct (Hfinal (deserialize r2)) as (res & -> & Hres).
    rewrite status_passed. exact Hres. }
  split; [eexists; exact Ht |]. split; [reflexivity |].
  split; [exact Hany |]. split.
  - intros s text Hr2. rewrite (Hany _ Hr2). cbn. split; congruence.
  - intros s j Hr2. rewrite (Hany _ Hr2). reflexivity.
Qed.

(** ** More about the fixtures *)

(** X6. When the login call of [authenticatedApiHelper] returns [null] or
    [undefined], reading [accessToken] throws: the test is a setup failure
    with that [TypeError], the consumer never runs, and one request was
    sent. *)
Theorem nullish_login_payload_is_a_setup_failure
    (body : FixtureValue → TestBody) (w : World) (r : Response) :
  network w (calls w) login_request = NetResponse r →
  nullish (deserialize r) = true →
  let t := run_trace authenticatedApiHelper body w in
  run_status authenticatedApiHelper body w = SetupFailed (TypeError "accessToken")
  ∧ yielded t = []
  ∧ count is_request t = 1%nat
  ∧ count is_teardown t = 0%nat
  ∧ lifecycle t = [UNSTARTED; LOGGING_IN; FAILED; DONE].
Proof.
  intros Hnet Hn t.
  destruct (runTest_authenticated_nullish body w r Hnet Hn) as [Hs Ht].
  subst t. rewrite Hs, Ht. repeat split.
Qed.

Lemma nullish_login_payload_witness :
  run_status authenticatedApiHelper (λ _, TDone)
    (initial (always (NetResponse (ok JUndefined))))
  = SetupFailed (TypeError "accessToken").
Proof.
  destruct (nullish_login_payload_is_a_setup_failure (λ _, TDone)
              (initial (always (NetResponse (ok JUndefined))))
              (ok JUndefined) eq_refl eq_refl) as [H _].
  exact H.
Defined.

(** X7. Every run of a test with [authenticatedApiHelper] goes through the
    lifecycle from UNSTARTED to DONE along the state machine, on one of two
    paths: through READY and TEARDOWN when the consumer ran, through FAILED
    when it did not; the report is a setup failure exactly on the second. *)
Theorem every_run_follows_the_lifecycle
    (body : FixtureValue → TestBody) (w : World) :
  let t := run_trace authenticatedApiHelper body w in
  let st := run_status authenticatedApiHelper body w in
  lifecycle_path (lifecycle t)
  ∧ ((lifecycle t = [UNSTARTED; LOGGING_IN; READY; TEARDOWN; DONE]
      ∧ (∃ v, yielded t = [v])
      ∧ (∀ e, st ≠ SetupFailed e) ∧ (∀ e, st ≠ TeardownFailed e))
     ∨ (lifecycle t = [UNSTARTED; LOGGING_IN; FAILED; DONE]
        ∧ yielded t = []
        ∧ ∃ e, st = SetupFailed e)).
Proof.
  intros t st.
  destruct (runTest_authenticated_cases body w)
    as [[Ht [e Hs]] | (v & evs & o & Ht & Hev & Hs)]; subst t st; rewrite Ht, Hs.
  - split; [repeat constructor |]. right. repeat split. eauto.
  - rewrite lifecycle_ready by exact Hev.
    rewrite !yielded_app, (body_events_not_yielded _ Hev).
    split; [repeat constructor |]. left.
    split; [reflexivity |]. split; [eauto |].
    split; intros e; destruct o; discriminate.
Qed.

(** X8. A test with the fixture [apiHelper] always runs its body: the report
    is [Passed] when the body completes and the failure of the body
    otherwise, never a failure of the fixture, and the cleanup runs once. *)
Theorem apiHelper_never_fails_setup
    (body : FixtureValue → TestBody) (w : World) :
  let t := run_trace apiHelper body w in
  let res := (run_body (body (VApiHelper (next_id w))) (ready_apiHelper w)).1 in
  run_status apiHelper body w =
    match res with inr _ => Passed | inl e => TestFailed e end
  ∧ count is_use t = 1%nat
  ∧ count is_teardown t = 1%nat
  ∧ last t = Some (EvPhase DONE).
Proof.
  intros t res.
  destruct (runTest_apiHelper_run body w) as [Hs Ht].
  destruct (run_body_trace (body (VApiHelper (next_id w))) (ready_apiHelper w))
    as (evs & Hlog & Hev & _).
  rewrite (body_trace_eq _ _ _ Hlog) in Ht.
  subst t. rewrite Hs, Ht. fold res.
  split; [destruct res; reflexivity |].
  rewrite !count_app.
  rewrite (body_events_count is_use evs) by
    (exact Hev || (intros [] He; try discriminate He; reflexivity)).
  rewrite (body_events_count is_teardown evs) by
    (exact Hev || (intros [] He; try discriminate He; reflexivity)).
  split; [reflexivity |]. split; [reflexivity |].
  rewrite !last_app. reflexivity.
Qed.

Lemma wf_same_log (w w' : World) :
  log w' = log w → next_id w' = next_id w → wf w → wf w'.
Proof. intros Hl Hn Hwf e c. rewrite Hl, Hn. apply Hwf. Qed.

Lemma wf_logged_in (w : World) : wf w → wf (logged_in w).
Proof.
  intros Hwf. unfold logged_in. apply wf_emit.
  - apply (wf_same_log (emit (EvPhase LOGGING_IN) (emit (EvNew (next_id w)) (alloc w))));
      [reflexivity | reflexivity |].
    apply wf_emit; [apply wf_alloc; exact Hwf | intros c []%elem_of_nil].
  - intros c ->%list_elem_of_singleton. simpl. lia.
Qed.

Lemma runTest_authenticated_wf body (w : World) :
  (∀ ctx, (next_id w ≤ helper ctx)%nat →
          scoped (S (helper ctx)) (body (VAuthenticated ctx))) →
  wf w → wf (runTest authenticatedApiHelper body w).2.
Proof.
  intros Hsc Hwf. unfold runTest.
  assert (Hw0 : wf (logged_in (set_verdict None w))).
  { apply wf_logged_in. exact (wf_same_log w _ eq_refl eq_refl Hwf). }
  destruct (network w (calls w) login_request) as [f | r] eqn:Hnet.
  - rewrite (authenticatedApiHelper_fault _ _ f) by exact Hnet.
    change (verdict (logged_in (set_verdict None w))) with (@None Outcome).
    cbn [snd]. do 2 (apply wf_emit; [| intros c []%elem_of_nil]). exact Hw0.
  - rewrite (authenticatedApiHelper_response _ _ r) by exact Hnet.
    destruct (nullish (deserialize r)).
    + change (verdict (logged_in (set_verdict None w))) with (@None Outcome).
      cbn [snd]. do 2 (apply wf_emit; [| intros c []%elem_of_nil]). exact Hw0.
    + rewrite use_teardown_eq. cbn [fst snd].
      do 3 (apply wf_emit; [| intros c []%elem_of_nil]).
      eapply wf_same_log; [reflexivity | reflexivity |].
      apply run_body_wf.
      * apply (Hsc (context_of (next_id w) (deserialize r))). simpl. lia.
      * apply wf_emit; [exact Hw0 |].
        intros c ->%list_elem_of_singleton. simpl. lia.
Qed.

(** X9. The log never mentions a client that was not constructed: the empty
    log has the property, and a test with either fixture keeps it when its
    body calls only through the client of its fixture and the clients it
    constructs.  This is what makes the client of the next fixture new. *)
Theorem tests_keep_the_log_well_scoped
    (body : FixtureValue → TestBody) (w : World) :
  (∀ net, wf (initial net))
  ∧ (wf w →
     (∀ c, (next_id w ≤ c)%nat → scoped (S c) (body (VApiHelper c))) →
     wf (runTest apiHelper body w).2
     ∧ fresh (next_id (runTest apiHelper body w).2) (runTest apiHelper body w).2)
  ∧ (wf w →
     (∀ ctx, (next_id w ≤ helper ctx)%nat →
             scoped (S (helper ctx)) (body (VAuthenticated ctx))) →
     wf (runTest authenticatedApiHelper body w).2
     ∧ fresh (next_id (runTest authenticatedApiHelper body w).2)
         (runTest authenticatedApiHelper body w).2).
Proof.
  split; [exact wf_initial |]. split; intros Hwf Hsc.
  - pose proof (runTest_apiHelper_wf body w Hsc Hwf) as H.
    split; [exact H | apply wf_fresh; exact H].
  - pose proof (runTest_authenticated_wf body w Hsc Hwf) as H.
    split; [exact H | apply wf_fresh; exact H].
Qed.

(** * More about the login schema *)

Section SchemaMore.
Import Zod.
Context (fmt : StringFormats).

Lemma pick_keys (data : list (string * JsValue)) :
  (pick LOGIN_API_SCHEMA data).*1 = declared LOGIN_API_SCHEMA.
Proof. reflexivity. Qed.

Lemma assoc_pick (data : list (string * JsValue)) (k : string) :
  k ∈ declared LOGIN_API_SCHEMA →
  assoc k (pick LOGIN_API_SCHEMA data) = Some (default JUndefined (assoc k data)).
Proof.
  intros Hk. unfold pick.
  rewrite (assoc_fmap_keys (λ k, default JUndefined (assoc k data))).
  rewrite decide_True by exact Hk. reflexivity.
Qed.

Lemma declared_of_shape (k : string) (t : ZodType) :
  (k, t) ∈ shape_of LOGIN_API_SCHEMA → k ∈ declared LOGIN_API_SCHEMA.
Proof. intros H. apply list_elem_of_fmap. exists (k, t). auto. Qed.

Lemma pick_pick (data : list (string * JsValue)) :
  pick LOGIN_API_SCHEMA (pick LOGIN_API_SCHEMA data) = pick LOGIN_API_SCHEMA data.
Proof.
  unfold pick at 1 3. apply list_fmap_ext. intros i k Hk.
  rewrite assoc_pick by (eapply list_elem_of_lookup_2; exact Hk). reflexivity.
Qed.

Lemma conforms_pick (data : list (string * JsValue)) :
  conforms fmt LOGIN_API_SCHEMA (JObj data) = true →
  conforms fmt LOGIN_API_SCHEMA (JObj (pick LOGIN_API_SCHEMA data)) = true.
Proof.
  intros (data0 & [= <-] & Hfields & _)%conforms_login.
  apply conforms_login. exists (pick LOGIN_API_SCHEMA data).
  split; [reflexivity |]. split.
  - intros k t Hkt. destruct (Hfields k t Hkt) as (x & Hx & Hc).
    exists x. rewrite assoc_pick by (eapply declared_of_shape; exact Hkt).
    rewrite Hx. auto.
  - intros k Hk. rewrite pick_keys in Hk. exact Hk.
Qed.

Lemma check_string_path (p : list string) (s : string)
    (checks : list StringCheck) (i : ZodIssue) :
  i ∈ (checks ≫= check_string fmt p s) → path i = p.
Proof.
  intros (c & Hi & _)%list_elem_of_bind.
  destruct c; simpl in Hi.
  - destruct (is_email fmt s); [inversion Hi |].
    apply list_elem_of_singleton in Hi. subst i. reflexivity.
  - destruct (is_url fmt s); [inversion Hi |].
    apply list_elem_of_singleton in Hi. subst i. reflexivity.
Qed.

Lemma primitive_issue_path (p : list string) (t : ZodType) (v : JsValue)
    (i : ZodIssue) :
  primitive t = true → i ∈ (parse_at fmt p t v).1 → path i = p.
Proof.
  destruct t as [checks | | values | shape uk]; try discriminate; intros _.
  - destruct v; simpl; try (intros ->%list_elem_of_singleton; reflexivity).
    apply check_string_path.
  - destruct v; simpl; try (intros ->%list_elem_of_singleton; reflexivity).
    intros []%elem_of_nil.
  - destruct v; simpl; try (intros ->%list_elem_of_singleton; reflexivity).
    destruct (bool_decide (s ∈ values)); simpl.
    + intros []%elem_of_nil.
    + intros ->%list_elem_of_singleton. reflexivity.
Qed.

Lemma primitive_field_ok (p : list string) (t : ZodType) (o : option JsValue) :
  primitive t = true →
  (parse_at fmt p t (default JUndefined o)).1 = []
  ↔ ∃ x, o = Some x ∧ conforms fmt t x = true.
Proof.
  intros Hprim. destruct o as [x |]; simpl.
  - destruct (conforms fmt t x) eqn:Hc.
    + rewrite (primitive_ok fmt p t x Hprim Hc). split; eauto.
    + split.
      * intros H. destruct (primitive_bad fmt p t x Hprim Hc H).
      * intros (y & [= <-] & Hy). congruence.
  - rewrite (primitive_undefined fmt p t Hprim). split.
    + discriminate.
    + intros (x & [=] & _).
Qed.

Lemma shape_issue_inv (p : list string) (data : list (string * JsValue))
    (shape : list (string * ZodType)) (i : ZodIssue) :
  i ∈ (parse_shape (parse_at fmt) p data shape).1 →
  ∃ k t, (k, t) ∈ shape
    ∧ i ∈ (parse_at fmt (p ++ [k]) t (default JUndefined (assoc k data))).1.
Proof.
  induction shape as [| [k t] shape IH]; simpl; [intros []%elem_of_nil |].
  intros [Hi | Hi]%elem_of_app.
  - exists k, t. split; [left | exact Hi].
  - destruct (IH Hi) as (k' & t' & Hin & Hi'). exists k', t'.
    split; [right; exact Hin | exact Hi'].
Qed.

Lemma shape_issue_intro (p : list string) (data : list (string * JsValue))
    (shape : list (string * ZodType)) (k : string) (t : ZodType) (i : ZodIssue) :
  (k, t) ∈ shape →
  i ∈ (parse_at fmt (p ++ [k]) t (default JUndefined (assoc k data))).1 →
  i ∈ (parse_shape (parse_at fmt) p data shape).1.
Proof.
  induction shape as [| [k' t'] shape IH]; [intros []%elem_of_nil |].
  intros [[= <- <-] | Hin]%elem_of_cons Hi; simpl; apply elem_of_app.
  - left. exact Hi.
  - right. exact (IH Hin Hi).
Qed.

Lemma login_keys_unique (k : string) (t t' : ZodType) :
  (k, t) ∈ shape_of LOGIN_API_SCHEMA → (k, t') ∈ shape_of LOGIN_API_SCHEMA →
  t = t'.
Proof.
  cbv [shape_of LOGIN_API_SCHEMA]. rewrite !elem_of_cons, !elem_of_nil.
  intros H H'.
  repeat (destruct H as [H | H]; [simplify_eq |]); try contradiction;
    repeat (destruct H' as [H' | H']; [simplify_eq; try reflexivity |]);
    try contradiction.
Qed.

End SchemaMore.

(** X10. A value that [LOGIN_API_SCHEMA.parse] returns is accepted by the
    schema once more, and parsing it returns it unchanged. *)
Theorem login_parse_is_idempotent (fmt : Zod.StringFormats) (v v' : JsValue) :
  Zod.parse fmt Zod.LOGIN_API_SCHEMA v = inr v' →
  Zod.parse fmt Zod.LOGIN_API_SCHEMA v' = inr v'.
Proof.
  intros Hv.
  destruct (parse_login_cases fmt v)
    as [[Hc (data & -> & Hparse)] | [_ (issues & Hparse)]]; [| congruence].
  rewrite Hparse in Hv. injection Hv as <-.
  rewrite parse_login_object, (conforms_pick fmt data Hc), pick_pick.
  reflexivity.
Qed.

Lemma login_parse_idempotent_witness :
  let fmt := Zod.mkFormats (λ s, bool_decide ("@"%char ∈ list_ascii_of_string s))
                           (λ s, String.prefix "http" s) in
  Zod.parse fmt Zod.LOGIN_API_SCHEMA sample_login = inr sample_login.
Proof.
  intros fmt.
  apply (login_parse_is_idempotent fmt
           (JObj (match sample_login with JObj data => reverse data | _ => [] end))).
  vm_compute. reflexivity.
Defined.

(** X11. The error of [LOGIN_API_SCHEMA.parse] on an object names the fields
    at fault and nothing else: it has an issue at the path of a declared
    field exactly when the field is missing or does not have the declared
    form, an issue at the root exactly when the object has a key that is not
    declared, and no other issue. *)
Theorem login_issues_name_the_fields_at_fault
    (fmt : Zod.StringFormats) (data : list (string * JsValue)) :
  let issues := (Zod.parse_at fmt [] Zod.LOGIN_API_SCHEMA (JObj data)).1 in
  (∀ k t, (k, t) ∈ Zod.shape_of Zod.LOGIN_API_SCHEMA →
     ((∃ i, i ∈ issues ∧ Zod.path i = [k])
      ↔ ¬ ∃ x, assoc k data = Some x ∧ Zod.conforms fmt t x = true))
  ∧ ((∃ i, i ∈ issues ∧ Zod.path i = [])
     ↔ ∃ k, k ∈ data.*1 ∧ k ∉ Zod.declared Zod.LOGIN_API_SCHEMA)
  ∧ (∀ i, i ∈ issues →
       Zod.path i = []
       ∨ ∃ k, k ∈ Zod.declared Zod.LOGIN_API_SCHEMA ∧ Zod.path i = [k])
  ∧ (issues ≠ [] →
     Zod.parse fmt Zod.LOGIN_API_SCHEMA (JObj data) = inl (Zod.ZodError issues)).
Proof.
  intros issues.
  set (shape := Zod.shape_of Zod.LOGIN_API_SCHEMA).
  set (extra := Zod.extra_keys shape data).
  assert (Hissues : issues =
            (Zod.parse_shape (Zod.parse_at fmt) [] data shape).1
            ++ match extra with
               | [] => []
               | _ :: _ => [Zod.mkIssue (Zod.unrecognized_keys extra) []]
               end).
  { apply strict_issues. }
  assert (Hflat : ∀ k t, (k, t) ∈ shape → Zod.primitive t = true).
  { intros k t Hkt.
    exact (proj1 (Forall_forall _ _) login_shape_flat (k, t) Hkt). }
  assert (Hfield : ∀ i, i ∈ (Zod.parse_shape (Zod.parse_at fmt) [] data shape).1 →
            ∃ k t, (k, t) ∈ shape ∧ Zod.path i = [k]
              ∧ i ∈ (Zod.parse_at fmt [k] t (default JUndefined (assoc k data))).1).
  { intros i (k & t & Hkt & Hi)%shape_issue_inv. exists k, t.
    split; [exact Hkt |]. split; [| exact Hi].
    exact (primitive_issue_path fmt _ _ _ _ (Hflat k t Hkt) Hi). }
  assert (Hextra : ∀ i, i ∈ match extra with
                           | [] => []
                           | _ :: _ => [Zod.mkIssue (Zod.unrecognized_keys extra) []]
                           end → Zod.path i = [] ∧ extra ≠ []).
  { intros i. destruct extra; [intros []%elem_of_nil |].
    intros ->%list_elem_of_singleton. split; [reflexivity | discriminate]. }
  split; [| split; [| split]].
  - intros k t Hkt. rewrite <- (primitive_field_ok fmt [k] t _ (Hflat k t Hkt)).
    split.
    + intros (i & Hi & Hp) Hnil. rewrite Hissues in Hi.
      apply elem_of_app in Hi as [Hi | Hi].
      * destruct (Hfield i Hi) as (k' & t' & Hkt' & Hp' & Hi').
        assert (k' = k) by congruence. subst k'.
        rewrite (login_keys_unique k t t' Hkt Hkt') in Hnil.
        rewrite Hnil in Hi'. inversion Hi'.
      * destruct (Hextra i Hi) as [Hp' _]. congruence.
    + intros Hne.
      destruct ((Zod.parse_at fmt [k] t (default JUndefined (assoc k data))).1)
        as [| i l] eqn:Hl; [contradiction |].
      exists i. split.
      * rewrite Hissues. apply elem_of_app. left.
        apply (shape_issue_intro fmt [] data shape k t i Hkt).
        simpl. rewrite Hl. left.
      * apply (primitive_issue_path fmt [k] t
                 (default JUndefined (assoc k data)) i (Hflat k t Hkt)).
        rewrite Hl. left.
  - split.
    + intros (i & Hi & Hp). rewrite Hissues in Hi.
      apply elem_of_app in Hi as [Hi | Hi].
      * destruct (Hfield i Hi) as (k' & t' & _ & Hp' & _). congruence.
      * destruct (Hextra i Hi) as [_ Hne].
        destruct extra as [| k ks] eqn:He; [contradiction |].
        assert (Hk : k ∈ Zod.extra_keys shape data).
        { fold extra. rewrite He. left. }
        apply list_elem_of_filter in Hk as [Hk1 Hk2]. eauto.
    + intros (k & Hk1 & Hk2).
      assert (Hk : k ∈ extra) by (apply list_elem_of_filter; auto).
      exists (Zod.mkIssue (Zod.unrecognized_keys extra) []).
      split; [| reflexivity]. rewrite Hissues. apply elem_of_app. right.
      destruct extra; [inversion Hk | left].
  - intros i Hi. rewrite Hissues in Hi. apply elem_of_app in Hi as [Hi | Hi].
    + destruct (Hfield i Hi) as (k & t & Hkt & Hp & _). right. exists k.
      split; [exact (declared_of_shape k t Hkt) | exact Hp].
    + left. exact (proj1 (Hextra i Hi)).
  - intros Hne. destruct issues as [| i l] eqn:Hl; [contradiction |].
    rewrite <- Hl. apply (parse_fails_on_issue fmt _ _ i).
    fold issues. rewrite Hl. left.
Qed.

Lemma assoc_Some_elem {A : Type} (k : string) (v : A) (l : list (string * A)) :
  NoDup l.*1 → (assoc k l = Some v ↔ (k, v) ∈ l).
Proof.
  induction l as [| [k' v'] l IH]; simpl.
  - intros _. split; [discriminate | intros []%elem_of_nil].
  - intros [Hk' Hnd]%NoDup_cons. destruct (String.eqb_spec k k') as [-> | Hne].
    + split.
      * intros [= ->]. left.
      * intros [[= ->] | Hin]%elem_of_cons; [reflexivity |].
        exfalso. apply Hk'. apply list_elem_of_fmap. exists (k', v). auto.
    + rewrite (IH Hnd). split.
      * intros Hin. right. exact Hin.
      * intros [[= -> ->] | Hin]%elem_of_cons; [contradiction | exact Hin].
Qed.

Lemma assoc_perm {A : Type} (k : string) (l l' : list (string * A)) :
  NoDup l.*1 → l ≡ₚ l' → assoc k l = assoc k l'.
Proof.
  intros Hnd Hp.
  assert (Hnd' : NoDup l'.*1) by (rewrite <- Hp; exact Hnd).
  destruct (assoc k l) as [v |] eqn:Hl.
  - symmetry. apply assoc_Some_elem; [exact Hnd' |].
    rewrite <- Hp. apply assoc_Some_elem; assumption.
  - destruct (assoc k l') as [v |] eqn:Hl'; [| reflexivity].
    apply (assoc_Some_elem k v l' Hnd') in Hl'. rewrite <- Hp in Hl'.
    apply (assoc_Some_elem k v l Hnd) in Hl'. congruence.
Qed.

(** X12. The order of the fields of a payload does not matter to
    [LOGIN_API_SCHEMA.parse]: two objects with the same fields in another
    order are accepted or rejected together, and when accepted the same
    value is returned, with the fields in the order of the schema. *)
Theorem login_parse_ignores_field_order (fmt : Zod.StringFormats)
    (data data' : list (string * JsValue)) :
  NoDup data.*1 → data ≡ₚ data' →
  Zod.conforms fmt Zod.LOGIN_API_SCHEMA (JObj data')
  = Zod.conforms fmt Zod.LOGIN_API_SCHEMA (JObj data)
  ∧ (∀ v, Zod.parse fmt Zod.LOGIN_API_SCHEMA (JObj data') = inr v
          ↔ Zod.parse fmt Zod.LOGIN_API_SCHEMA (JObj data) = inr v)
  ∧ (∀ v, Zod.parse fmt Zod.LOGIN_API_SCHEMA (JObj data) = inr v →
          ∃ fields, v = JObj fields
            ∧ fields.*1 = Zod.declared Zod.LOGIN_API_SCHEMA).
Proof.
  intros Hnd Hp.
  assert (Hassoc : ∀ k, assoc k data = assoc k data').
  { intros k. apply assoc_perm; assumption. }
  assert (Hpick : Zod.pick Zod.LOGIN_API_SCHEMA data'
                  = Zod.pick Zod.LOGIN_API_SCHEMA data).
  { unfold Zod.pick. apply list_fmap_ext. intros i k _. rewrite Hassoc.
    reflexivity. }
  assert (Hconf : Zod.conforms fmt Zod.LOGIN_API_SCHEMA (JObj data')
                  = Zod.conforms fmt Zod.LOGIN_API_SCHEMA (JObj data)).
  { assert (Hiff : Zod.conforms fmt Zod.LOGIN_API_SCHEMA (JObj data') = true
                   ↔ Zod.conforms fmt Zod.LOGIN_API_SCHEMA (JObj data) = true).
    { rewrite !conforms_login. split.
      - intros (d & [= <-] & Hf & Hk). exists data. split; [reflexivity |].
        split.
        + intros k t Hkt. rewrite Hassoc. exact (Hf k t Hkt).
        + intros k Hin. apply Hk. rewrite <- Hp. exact Hin.
      - intros (d & [= <-] & Hf & Hk). exists data'. split; [reflexivity |].
        split.
        + intros k t Hkt. rewrite <- Hassoc. exact (Hf k t Hkt).
        + intros k Hin. apply Hk. rewrite Hp. exact Hin. }
    destruct (Zod.conforms fmt Zod.LOGIN_API_SCHEMA (JObj data'));
      destruct (Zod.conforms fmt Zod.LOGIN_API_SCHEMA (JObj data));
      try reflexivity.
    - symmetry. apply Hiff. reflexivity.
    - apply Hiff. reflexivity. }
  split; [exact Hconf |]. split.
  - intros v. rewrite !parse_login_object, Hconf, Hpick.
    destruct (Zod.conforms fmt Zod.LOGIN_API_SCHEMA (JObj data)).
    + reflexivity.
    + split; discriminate.
  - intros v. rewrite parse_login_object.
    destruct (Zod.conforms fmt Zod.LOGIN_API_SCHEMA (JObj data)); [| discriminate].
    intros [= <-]. eexists. split; [reflexivity | reflexivity].
Qed.

Lemma login_field_order_witness :
  let fmt := Zod.mkFormats (λ s, bool_decide ("@"%char ∈ list_ascii_of_string s))
                           (λ s, String.prefix "http" s) in
  let data := match sample_login with JObj data => data | _ => [] end in
  Zod.parse fmt Zod.LOGIN_API_SCHEMA (JObj (reverse data)) = inr sample_login.
Proof.
  intros fmt data.
  destruct (login_parse_ignores_field_order fmt data (reverse data))
    as (_ & H & _).
  - apply (bool_decide_unpack _). vm_compute. exact I.
  - symmetry. apply reverse_Permutation.
  - apply H. vm_compute. reflexivity.
Defined.

(** * The page helper *)

Section PageFacts.
Import PageHelper.

Lemma fold_labels_elem (labels seen : list string) (x : string) :
  x ∈ fold_left add_label labels seen ↔ x ∈ seen ∨ x ∈ labels.
Proof.
  revert seen. induction labels as [| y labels IH]; intros seen; simpl.
  - rewrite elem_of_nil. tauto.
  - rewrite IH, elem_of_cons. unfold add_label.
    destruct (bool_decide (y ∈ seen)) eqn:Hy.
    + apply bool_decide_eq_true in Hy. split; [tauto |].
      intros [H | [-> | H]]; tauto.
    + rewrite elem_of_app, list_elem_of_singleton. tauto.
Qed.



Lemma check_entries_ok (labelSet : list string)
    (entries : list (string * JsValue)) :
  check_entries labelSet entries = inr tt
  ↔ ∀ key text, (key, JStr text) ∈ entries → text ∈ labelSet.
Proof.
  induction entries as [| [key v] entries IH]; simpl.
  - split; [intros _ key text []%elem_of_nil | reflexivity].
  - assert (Hskip : (∀ text, v ≠ JStr text) →
              (check_entries labelSet entries = inr tt
               ↔ ∀ key0 text, (key0, JStr text) ∈ (key, v) :: entries →
                              text ∈ labelSet)).
    { intros Hv. rewrite IH. split.
      - intros H key0 text [[= -> <-] | Hin]%elem_of_cons;
          [destruct (Hv text eq_refl) | exact (H key0 text Hin)].
      - intros H key0 text Hin. apply (H key0 text). right. exact Hin. }
    destruct v as [| | | | text | |]; try (apply Hskip; discriminate).
    destruct (bool_decide (text ∈ labelSet)) eqn:Ht.
    + apply bool_decide_eq_true in Ht. rewrite IH. split.
      * intros H key0 text0 [[= -> ->] | Hin]%elem_of_cons;
          [exact Ht | exact (H key0 text0 Hin)].
      * intros H key0 text0 Hin. apply (H key0 text0). right. exact Hin.
    + apply bool_decide_eq_false in Ht. split; [discriminate |].
      intros H. destruct Ht. apply (H key text). left.
Qed.





Lemma find_none {A : Type} (p : A → bool) (l : list A) :
  Forall (λ y, p y = false) l → List.find p l = None.
Proof.
  induction 1 as [| y l Hy _ IH]; simpl; [reflexivity |].
  rewrite Hy. exact IH.
Qed.

End PageFacts.

(** X13. [validateTextsBasedOnEnums] returns normally exactly when the
    selector shows up in time and every string among the values of
    [enumNames] is the text of some element; values that are not strings are
    not checked, and neither the order nor the repetition of the texts on
    the page matters. *)
Theorem validate_passes_iff_every_text_is_shown
    (page : PageHelper.PageView) (selectors : string)
    (enumNames : list (string * JsValue)) :
  PageHelper.validateTextsBasedOnEnums page selectors enumNames = inr tt
  ↔ PageHelper.waitForSelector page selectors = true
    ∧ ∀ key text, (key, JStr text) ∈ enumNames →
                  text ∈ PageHelper.allTextContents page selectors.
Proof.
  unfold PageHelper.validateTextsBasedOnEnums.
  destruct (PageHelper.waitForSelector page selectors).
  - rewrite check_entries_ok. unfold PageHelper.new_Set. split.
    + intros H. split; [reflexivity |]. intros key text Hin.
      destruct (proj1 (fold_labels_elem _ _ _) (H key text Hin))
        as [[]%elem_of_nil | Ht]. exact Ht.
    + intros [_ H] key text Hin. apply fold_labels_elem. right.
      exact (H key text Hin).
  - split; [discriminate | intros [[=] _]].
Qed.





(** X16. The second URL of [captureResponseWhenPageLoad]: when it is absent
    or empty the helper does not wait for a second response and
    [secondResponse] is [null]; when it is given and no response with status
    200 contains it, the call times out even though the first response came;
    when it is the first URL again, both fields hold the same data.  The
    call throws only what the step threw or a timeout: a body that is not
    JSON is never an error. *)
Theorem capture_second_response
    (json_error : string → string) (step : PageHelper.PageError + unit)
    (arriving : list PageHelper.PageResponse) (requestUrl : string)
    (secondRequestUrl : option string) :
  let res :=
    (PageHelper.captureResponseWhenPageLoad json_error step arriving
       requestUrl secondRequestUrl).1 in
  (secondRequestUrl = None ∨ secondRequestUrl = Some "" →
   ∀ c, res = inr c → PageHelper.secondResponse c = JNull)
  ∧ (∀ u, secondRequestUrl = Some u → u ≠ "" → step = inr tt →
          Forall (λ x, PageHelper.wanted u x = false) arriving →
          res = inl PageHelper.TimeoutError)
  ∧ (secondRequestUrl = Some requestUrl → requestUrl ≠ "" →
     ∀ c, res = inr c → PageHelper.firstResponse c = PageHelper.secondResponse c)
  ∧ (∀ e, res = inl e → step = inl e ∨ e = PageHelper.TimeoutError).
Proof.
  intros res. subst res.
  unfold PageHelper.captureResponseWhenPageLoad, PageHelper.waitForResponse.
  split; [| split; [| split]].
  - intros Hsecond c.
    assert (Hg : PageHelper.given secondRequestUrl = None)
      by (destruct Hsecond as [-> | ->]; reflexivity).
    rewrite Hg. destruct step; [discriminate |].
    destruct (List.find _ arriving); [| discriminate].
    intros [= <-]. reflexivity.
  - intros u -> Hu -> Hnone.
    assert (Hg : PageHelper.given (Some u) = Some u)
      by (destruct u; [contradiction | reflexivity]).
    rewrite Hg, (find_none _ arriving Hnone).
    destruct (List.find _ arriving); reflexivity.
  - intros -> Hu c.
    assert (Hg : PageHelper.given (Some requestUrl) = Some requestUrl)
      by (destruct requestUrl; [contradiction | reflexivity]).
    rewrite Hg. destruct step; [discriminate |].
    destruct (List.find (PageHelper.wanted requestUrl) arriving) as [r |];
      [| discriminate].
    intros [= <-]. unfold PageHelper.json_or_null.
    destruct (PageHelper.resp_body r); reflexivity.
  - intros e. destruct step as [e0 | []]; [intros [= <-]; left; reflexivity |].
    destruct (List.find (PageHelper.wanted requestUrl) arriving) as [r |];
      [| intros [= <-]; right; reflexivity].
    destruct (PageHelper.given secondRequestUrl) as [u |]; [| discriminate].
    destruct (List.find (PageHelper.wanted u) arriving);
      [discriminate | intros [= <-]; right; reflexivity].
Qed.

(** X17. [waitForPageLoad] does what [waitOnlyForPageLoad] does and then, if
    the three waits succeeded, pauses once: 17000 ms for ["max"], 3600 ms for
    ["min"], 9000 ms for the empty or absent mode, and not at all for any
    other mode.  When a wait times out both stop there with that error.  The
    first wait is on the page of the helper, also when another page is
    given. *)
Theorem waitForPageLoad_is_waitOnly_then_a_pause
    (view : PageHelper.PageView) (this_page : PageHelper.PageId)
    (mode : option string) (page : option PageHelper.PageId) :
  let only := PageHelper.waitOnlyForPageLoad view this_page page in
  let full := PageHelper.waitForPageLoad view this_page mode page in
  let p := default this_page page in
  let pause :=
    match default "" mode with
    | "max" => [PageHelper.WaitForTimeout p 17000]
    | "min" => [PageHelper.WaitForTimeout p 3600]
    | "" => [PageHelper.WaitForTimeout p 9000]
    | _ => []
    end%string in
  full.1 = only.1
  ∧ full.2 = only.2 ++ (if only.1 is inr _ then pause else [])
  ∧ (only.1 = inr tt →
     only.2 = [PageHelper.WaitForLoadState this_page PageHelper.domcontentloaded;
               PageHelper.WaitForLoadState p PageHelper.networkidle;
               PageHelper.WaitForLoadState p PageHelper.load])
  ∧ (∀ e, only.1 = inl e → e = PageHelper.TimeoutError)
  ∧ head full.2
    = Some (PageHelper.WaitForLoadState this_page PageHelper.domcontentloaded).
Proof.
  intros only full p pause.
  assert (Hpause : ∀ s : string,
            (if String.eqb s "max" then PageHelper.wait_timeout p 17000
             else if String.eqb s "min" then PageHelper.wait_timeout p 3600
             else if String.eqb s "" then PageHelper.wait_timeout p 9000
             else PageHelper.done)
            = (inr tt,
               match s with
               | "max" => [PageHelper.WaitForTimeout p 17000]
               | "min" => [PageHelper.WaitForTimeout p 3600]
               | "" => [PageHelper.WaitForTimeout p 9000]
               | _ => []
               end%string)).
  { intros s.
    destruct (String.eqb_spec s "max") as [-> | H1]; [reflexivity |].
    destruct (String.eqb_spec s "min") as [-> | H2]; [reflexivity |].
    destruct (String.eqb_spec s "") as [-> | H3]; [reflexivity |].
    unfold PageHelper.done. f_equal.
    repeat (match goal with
            | |- context [match ?x with _ => _ end] =>
                destruct x; try reflexivity; try congruence
            end). }
  subst only full pause.
  unfold PageHelper.waitForPageLoad, PageHelper.waitOnlyForPageLoad,
    PageHelper.domcontentloaded_, PageHelper.andThen, PageHelper.wait_load.
  fold p. rewrite (Hpause (default ""%string mode)).
  cbn [fst snd].
  destruct (PageHelper.waitForLoadState view this_page PageHelper.domcontentloaded);
    destruct (PageHelper.waitForLoadState view p PageHelper.networkidle);
    destruct (PageHelper.waitForLoadState view p PageHelper.load);
    cbn [fst snd app];
    (split; [reflexivity |]); (split; [reflexivity |]);
    (split; [try discriminate; reflexivity |]);
    (split; [intros e; try discriminate; intros [= <-]; reflexivity
            | reflexivity]).
Qed.

(** X18. [expectCountGreaterThan(locator, number)] passes exactly when the
    number of elements is smaller than [number]: it compares the number
    given with the count, not the count with the number.  So it never
    passes together with [validateElementsCount] for the same number, and
    never for a number that is not positive. *)
Theorem expectCountGreaterThan_wants_fewer_elements
    (view : PageHelper.PageView) (locator : string) (number : Z) :
  let count := Z.of_nat (PageHelper.getElementsCount view locator) in
  (PageHelper.expectCountGreaterThan view locator number = inr tt
   ↔ (count < number)%Z)
  ∧ (PageHelper.validateElementsCount view locator number = inr tt
     ↔ count = number)
  ∧ ¬ (PageHelper.expectCountGreaterThan view locator number = inr tt
       ∧ PageHelper.validateElementsCount view locator number = inr tt)
  ∧ ((number ≤ 0)%Z →
     PageHelper.expectCountGreaterThan view locator number
     = inl (PageHelper.ExpectFailed "toBeGreaterThan")).
Proof.
  intros count.
  unfold PageHelper.expectCountGreaterThan, PageHelper.validateElementsCount.
  fold count.
  destruct (Z.ltb_spec count number) as [Hlt | Hge];
    destruct (Z.eqb_spec count number) as [Heq | Hne];
    repeat split; try discriminate; try lia; try tauto;
    try (intros [? ?]; discriminate); intros; subst count; lia.
Qed.

(** X19. [expectVisibleAllElements] passes exactly when every element of the
    selector is visible; in particular it passes when the selector matches
    nothing. *)
Theorem expectVisibleAllElements_passes_iff_all_visible
    (view : PageHelper.PageView) (selector : string) :
  (PageHelper.expectVisibleAllElements view selector = inr tt
   ↔ Forall (λ visible, visible = true)
       (PageHelper.elements_visible view selector))
  ∧ (PageHelper.elements_visible view selector = [] →
     PageHelper.expectVisibleAllElements view selector = inr tt)
  ∧ (∀ e, PageHelper.expectVisibleAllElements view selector = inl e →
          e = PageHelper.ExpectFailed "toBe").
Proof.
  unfold PageHelper.expectVisibleAllElements.
  induction (PageHelper.elements_visible view selector) as [| b l IH]; simpl.
  - split; [split; [constructor | reflexivity] |].
    split; [reflexivity | discriminate].
  - destruct IH as (IH1 & _ & IH3). destruct b.
    + split; [| split; [discriminate | exact IH3]].
      rewrite IH1. split.
      * intros H. constructor; [reflexivity | exact H].
      * intros H. inversion H. assumption.
    + split; [| split; [discriminate | intros e [= <-]; reflexivity]].
      split; [discriminate | intros H; inversion H; discriminate].
Qed.

(** ** Instances of the theorems on the tests *)

Lemma refresh_test_witness :
  ApiTests.status ApiTests.refresh_auth_session
    (initial (first_then (ok sample_login) (ok sample_refreshed))) = Passed.
Proof.
  destruct (refresh_test_posts_the_login_refresh_token
              (initial (first_then (ok sample_login) (ok sample_refreshed)))
              (ok sample_login) eq_refl eq_refl) as (_ & H & _).
  apply (H (ok sample_refreshed) eq_refl).
  repeat split; discriminate.
Defined.

Lemma current_user_test_witness :
  ApiTests.status
    (ApiTests.get_current_auth_user
       (λ v, match v with JStr s => s | _ => "undefined" end))
    (initial (first_then (ok sample_login) (ok sample_login))) = Passed.
Proof.
  destruct (current_user_test_sends_the_bearer_token
              (λ v, match v with JStr s => s | _ => "undefined" end)
              (initial (first_then (ok sample_login) (ok sample_login)))
              (ok sample_login) eq_refl eq_refl) as (_ & _ & _ & _ & H & _).
  apply (H (ok sample_login) eq_refl). reflexivity.
Defined.

Lemma error_test_witness :
  ApiTests.status ApiTests.error_API
    (initial (first_then (ok sample_login)
                {| status := 404; content := BodyText "Not Found" |})) = Passed.
Proof.
  destruct (error_test_passes_on_status_404
              (initial (first_then (ok sample_login)
                          {| status := 404; content := BodyText "Not Found" |}))
              (ok sample_login) eq_refl eq_refl) as (_ & _ & _ & H & _).
  apply (H 404%Z "Not Found" eq_refl). reflexivity.
Defined.

Lemma well_scoped_witness :
  wf (ApiTests.run ApiTests.get_all_carts
        (initial (always (NetResponse (ok (JObj [("carts", JArr [])])))))).2.
Proof.
  destruct (tests_keep_the_log_well_scoped
              (ApiTests.body_of ApiTests.get_all_carts)
              (initial (always (NetResponse (ok (JObj [("carts", JArr [])]))))))
    as (Hinit & Hapi & _).
  apply Hapi.
  - apply Hinit.
  - intros c _. constructor; [lia | intros r; constructor].
Defined.
